(** * The decryption-service client ([client/dummyclient.go])

    A shallow embedding of the client's [main] function: the run of the
    program is a computation over a trace of observable events (RPCs issued,
    log lines written) that either returns, exits through [log.Fatal] or
    panics.  The gRPC server, the two fixture files and the Go standard
    library's cryptography are the program's collaborators; they are
    gathered in one record, [World].  What the program does is proved for an
    arbitrary world; what it does on given inputs is computed in the small
    world of [Fixture]. *)

From Stdlib Require Import ZArith NArith Lia List.
From Stdlib.Strings Require Import Ascii String Byte.
From stdpp Require Import base tactics option list strings countable gmap.

Local Open Scope string_scope.
Local Open Scope list_scope.

(** ** Bytes and Go strings *)

(** A Go [[]byte] is a list of bytes; a Go [string] is a byte string too. *)
Abbreviation bytes := (list byte).

#[global] Instance byte_eq_dec : EqDecision byte := Byte.byte_eq_dec.

#[global] Instance byte_countable : Countable byte :=
  inj_countable Byte.to_N Byte.of_N Byte.of_to_N.

Definition bytes_of_string (s : string) : bytes := list_byte_of_string s.

(** ** [encoding/hex] *)

Module hex.

(** [reverseHexTable]: the value of a hexadecimal digit, [None] standing
    for the table's 0xff entries. *)
Definition fromHexChar (c : ascii) : option N :=
  let n := N_of_ascii c in
  if (48 <=? n)%N && (n <=? 57)%N then Some (n - 48)%N
  else if (97 <=? n)%N && (n <=? 102)%N then Some (n - 97 + 10)%N
  else if (65 <=? n)%N && (n <=? 70)%N then Some (n - 65 + 10)%N
  else None.

(** [dst[i] = (a << 4) | b] *)
Definition mkByte (a b : N) : byte :=
  byte_of_ascii (ascii_of_N (N.lor (N.shiftl a 4) b)).

Inductive error :=
| InvalidByteError (c : ascii)
| ErrLength.

(** [hex.Decode], returning the bytes written before the error together
    with the error, as [hex.DecodeString] hands them back ([src[:n], err]):
    "if the input is malformed, DecodeString returns the bytes decoded
    before the error".  Pairs are decoded from the left; a last character
    without its pair is checked for being a digit before the length is
    reported. *)
Fixpoint Decode (src : string) : bytes * option error :=
  match src with
  | EmptyString => ([], None)
  | String p EmptyString =>
      match fromHexChar p with
      | None => ([], Some (InvalidByteError p))
      | Some _ => ([], Some ErrLength)
      end
  | String p (String q rest) =>
      match fromHexChar p with
      | None => ([], Some (InvalidByteError p))
      | Some a =>
          match fromHexChar q with
          | None => ([], Some (InvalidByteError q))
          | Some b =>
              let '(out, err) := Decode rest in
              (mkByte a b :: out, err)
          end
      end
  end.

Definition DecodeString (s : string) : bytes * option error := Decode s.

Definition hextable : string := "0123456789abcdef".

(** [hextable[n]] *)
Definition digit (n : N) : ascii :=
  match String.get (N.to_nat n) hextable with
  | Some c => c
  | None => "0"%char
  end.

(** [hex.EncodeToString]: [hextable[v>>4]] and [hextable[v&0x0f]] for each
    byte [v]. *)
Fixpoint EncodeToString (src : bytes) : string :=
  match src with
  | [] => EmptyString
  | v :: rest =>
      String (digit (N.shiftr (Byte.to_N v) 4))
        (String (digit (N.land (Byte.to_N v) 15)) (EncodeToString rest))
  end.

End hex.

(** ** [strings.Split] with a one-byte separator *)

Module strings.

(** [splitFrom sep cur s]: the fields of [cur ++ s], where [cur] is the part
    already read of the first of them. *)
Fixpoint splitFrom (sep : ascii) (cur : string) (s : string) : list string :=
  match s with
  | EmptyString => [cur]
  | String c rest =>
      if Ascii.eqb c sep then cur :: splitFrom sep EmptyString rest
      else splitFrom sep (cur ++ String c EmptyString) rest
  end.

Definition Split (s : string) (sep : ascii) : list string :=
  splitFrom sep EmptyString s.

End strings.

(** ** Messages of the wire protocol ([decryptionservice] package) *)

(** A Go [error], identified by its message. *)
Definition error := string.

Inductive result (A : Type) :=
| Ok (a : A)
| Err (e : error).
Arguments Ok {A} a.
Arguments Err {A} e.

Module pb.

Record RootTreeHash := {
  Rth : bytes;
  Nonce : bytes;
  Sig : bytes
}.

Record Quote := {
  Quote_ : bytes;
  RSA_EncryptionKey : bytes;
  RSA_VerificationKey : bytes
}.

Record DecryptionRequest := {
  Ciphertext : bytes;
  ProofOfPresence : string;
  ProofOfExtension : string
}.

Record Record_ := { Plaintext : bytes }.

End pb.

(** ** The Go libraries the client calls *)

Module rsa.
Record PublicKey := { N : Z; E : Z }.
(** The size of the modulus in bits. *)
Definition BitLen (k : PublicKey) : Z := Z.log2 (N k) + 1.
End rsa.

Module x509.
(** What [x509.ParsePKIXPublicKey] hands back in an [interface{}]: an RSA
    key or a key of another algorithm (DSA, ECDSA, Ed25519, ...). *)
Inductive PublicKey :=
| RSA (k : rsa.PublicKey)
| Other (algorithm : string).
End x509.

Module pem.
Record Block := { Type_ : string; Bytes : bytes }.
End pem.

Module crypto.
Inductive Hash := SHA256.
End crypto.

(** A scanned file: [os.Open] fails, or the scanner yields lines until the
    end of the file or until its own error ([scanner.Err]). *)
Record Scanned := {
  lines : list string;
  scanErr : option error
}.

(** The collaborators of one run.  [DecryptRecord n] answers the call that
    follows [n] earlier [DecryptRecord] calls; [sigSpare] is what the backing
    array of the received signature holds beyond the signature's length
    ([cap(rth.Sig) - len(rth.Sig)] bytes). *)
Record World := {
  Dial : option error;
  GetRootTreeHash : bytes -> result pb.RootTreeHash;
  sigSpare : bytes;
  GetPublicKey : bytes -> result pb.Quote;
  DecryptRecord : nat -> pb.DecryptionRequest -> result pb.Record_;
  open_records : result Scanned;
  open_records_proofs : result Scanned;
  pem_Decode : bytes -> option pem.Block;
  x509_ParsePKIXPublicKey : bytes -> result x509.PublicKey;
  rsa_EncryptOAEP : rsa.PublicKey -> bytes -> bytes -> result bytes;
  rsa_EncryptPKCS1v15 : rsa.PublicKey -> bytes -> result bytes;
  rsa_VerifyPKCS1v15 : rsa.PublicKey -> crypto.Hash -> bytes -> bytes -> option error;
  sha256_Sum256 : bytes -> bytes;
  sha256_Size : forall m, length (sha256_Sum256 m) = 32;
  base64_DecodeString : string -> bytes * option error
}.

(** ** Runs: a trace, and how the program stops *)

Inductive Panic :=
| NilDereference
| IndexOutOfRange
| SliceOutOfRange
| PanicString (msg : string).

(** [log.Fatal] and [log.Fatalf] print and exit; a panic unwinds. *)
Inductive Exit :=
| Fatal (e : error)
| Panicked (p : Panic).

Inductive Event :=
| CallGetRootTreeHash (nonce : bytes)
| CallGetPublicKey (nonce : bytes)
| CallDecryptRecord (req : pb.DecryptionRequest)
| LogRTH (rth nonce sig31 : bytes)
| LogQuote (q : pb.Quote)
| LogEncryptionTest (plaintext label ciphertext : bytes)
| LogSpecTestFailed (e : error)
| LogSpecTestPlaintext (p : bytes)
| LogVerifyFailed (e : error)
| LogVerified (rth : bytes)
| LogCouldNotDecrypt (e : error)
| PrintDecryptRecord (ctSum : bytes) (first : byte).

Record State := {
  trace : list Event;
  calls : nat
}.

Definition M (A : Type) : Type := State -> (Exit + A) * State.

Definition ret {A} (a : A) : M A := fun s => (inr a, s).

Definition bind {A B} (m : M A) (k : A -> M B) : M B :=
  fun s =>
    match m s with
    | (inr a, s') => k a s'
    | (inl x, s') => (inl x, s')
    end.

Definition exit {A} (x : Exit) : M A := fun s => (inl x, s).

Definition emit (e : Event) : M unit :=
  fun s => (inr tt, {| trace := trace s ++ [e]; calls := calls s |}).

Declare Scope go_scope.
Delimit Scope go_scope with go.
Notation "x <- m ;; k" := (bind m (fun x => k))
  (at level 20, m at level 99, k at level 200, only parsing) : go_scope.
Notation "' p <- m ;; k" := (bind m (fun p => k))
  (at level 20, p pattern, m at level 99, k at level 200, only parsing) : go_scope.
Local Open Scope go_scope.

(** [log.Fatal(err)] *)
Definition fatal {A} (e : error) : M A := exit (Fatal e).

(** [panic(v)] and the run-time panics *)
Definition panic {A} (p : Panic) : M A := exit (Panicked p).

(** [*p] for a pointer that may be nil *)
Definition deref {A} (p : option A) : M A :=
  match p with
  | Some a => ret a
  | None => panic NilDereference
  end.

(** [a[i]] *)
Definition index {A} (a : list A) (i : nat) : M A :=
  match a !! i with
  | Some x => ret x
  | None => panic IndexOutOfRange
  end.

(** [a[:n]] for a slice [a] whose backing array holds [spare] beyond its
    length: [n] may reach the capacity, [len(a) + len(spare)], and the
    result then shows what the array holds there. *)
Definition sliceTo {A} (a spare : list A) (n : nat) : M (list A) :=
  if (n <=? length a + length spare)%nat then ret (take n (a ++ spare))
  else panic SliceOutOfRange.

(** [copy(dst, src)]: the first [min (len dst) (len src)] elements of [dst]
    are overwritten. *)
Definition copy {A} (dst src : list A) : list A :=
  take (length dst) src ++ drop (length src) dst.

(** [for scanner.Scan() { body }] with a loop-carried value *)
Fixpoint forEach {A S} (body : S -> A -> M S) (xs : list A) (acc : S) : M S :=
  match xs with
  | [] => ret acc
  | x :: rest => acc' <- body acc x ;; forEach body rest acc'
  end.

(** ** The program *)

Definition address := "localhost:50051".
Definition defaultName := "world".
Definition rsaSpecTest := false.

Record leaf := { Hash : bytes }.

(** The [[32]byte{}] zero value. *)
Definition zero32 : bytes := replicate 32 x00.

Section Client.

Variable W : World.

(** Lines 36-39: [grpc.Dial]. *)
Definition dial : M unit :=
  match Dial W with
  | Some e => fatal ("did not connect: " +:+ e)
  | None => ret tt
  end.

(** Lines 44-48: [c.GetRootTreeHash] and the log line that prints the
    first 31 bytes of the signature. *)
Definition getRootTreeHash : M pb.RootTreeHash :=
  let nonce := bytes_of_string "aaaaaaaaa" in
  _ <- emit (CallGetRootTreeHash nonce) ;;
  match GetRootTreeHash W nonce with
  | Err e => fatal ("could not get rth: " +:+ e)
  | Ok rth =>
      sig31 <- sliceTo (pb.Sig rth) (sigSpare W) 31 ;;
      _ <- emit (LogRTH (pb.Rth rth) (pb.Nonce rth) sig31) ;;
      ret rth
  end.

(** Lines 51-55: [c.GetPublicKey]. *)
Definition getPublicKey : M pb.Quote :=
  let nonce := bytes_of_string "a long and random byte array" in
  _ <- emit (CallGetPublicKey nonce) ;;
  match GetPublicKey W nonce with
  | Err e => fatal ("could not get quote containing the public key: " +:+ e)
  | Ok pk =>
      _ <- emit (LogQuote pk) ;;
      ret pk
  end.

(** Lines 70-71: the type assertion to a pointer to [rsa.PublicKey], its
    [ok] result dropped: nil when the dynamic type differs. *)
Definition assertRSA (pub : x509.PublicKey) : option rsa.PublicKey :=
  match pub with
  | x509.RSA k => Some k
  | x509.Other _ => None
  end.

(** The value of [panic("failed to parse DER encoded public key: " + err.Error())]. *)
Definition parsePanic (e : error) : Panic :=
  PanicString ("failed to parse DER encoded public key: " +:+ e).

(** Lines 61-64 and 65-68: [x509.ParsePKIXPublicKey(block.Bytes)]. *)
Definition parseBlock (block : option pem.Block) : M x509.PublicKey :=
  b <- deref block ;;
  match x509_ParsePKIXPublicKey W (pem.Bytes b) with
  | Err e => panic (parsePanic e)
  | Ok pub => ret pub
  end.

(** Lines 57-71: import of the two public keys. *)
Definition importKeys (pk : pb.Quote)
  : M (option rsa.PublicKey * option rsa.PublicKey) :=
  let encBlock := pem_Decode W (pb.RSA_EncryptionKey pk) in
  let verBlock := pem_Decode W (pb.RSA_VerificationKey pk) in
  encPub <- parseBlock encBlock ;;
  verPub <- parseBlock verBlock ;;
  let rsaEncPub := assertRSA encPub in
  let rsaVerPub := assertRSA verPub in
  ret (rsaEncPub, rsaVerPub).

Definition samplePlaintext := bytes_of_string "Decrypt RPC successfull (OAEP padding)".
Definition label := bytes_of_string "record".
Definition samplePKCS1v15PT := bytes_of_string "Decrypt RPC successfull (PKCS1v15 padding)".

(** Lines 73-92: the two sample encryptions.  Both library calls read the
    key through its pointer. *)
Definition encryptionTest (rsaEncPub : option rsa.PublicKey) : M (bytes * bytes) :=
  k <- deref rsaEncPub ;;
  match rsa_EncryptOAEP W k samplePlaintext label with
  | Err e => fatal e
  | Ok sampleCiphertext =>
      match rsa_EncryptPKCS1v15 W k samplePKCS1v15PT with
      | Err e => fatal e
      | Ok samplePKCS1v15CT =>
          _ <- emit (LogEncryptionTest samplePlaintext label sampleCiphertext) ;;
          ret (sampleCiphertext, samplePKCS1v15CT)
      end
  end.

(** [c.DecryptRecord(ctx, req)]: the request goes out, the answer is the
    world's for this call. *)
Definition decryptRecord (req : pb.DecryptionRequest) : M (result pb.Record_) :=
  fun s =>
    (inr (DecryptRecord W (calls s) req),
     {| trace := trace s ++ [CallDecryptRecord req]; calls := S (calls s) |}).

(** Lines 96-101 and 104-109. *)
Definition specTestCall (ct : bytes) (pop poe : string) : M unit :=
  response <- decryptRecord
    {| pb.Ciphertext := ct; pb.ProofOfPresence := pop; pb.ProofOfExtension := poe |} ;;
  match response with
  | Err e => emit (LogSpecTestFailed e)
  | Ok r => emit (LogSpecTestPlaintext (pb.Plaintext r))
  end.

(** Lines 94-110. *)
Definition specTest (sampleCiphertext samplePKCS1v15CT : bytes) : M unit :=
  if rsaSpecTest then
    _ <- specTestCall sampleCiphertext "{json proof...............}" "{json proof...}" ;;
    specTestCall samplePKCS1v15CT "{json proof...................}" "{json proof...}"
  else ret tt.

(** Lines 112-119: verification of the signed root tree hash. *)
Definition verifyRTH (rsaVerPub : option rsa.PublicKey) (rth : pb.RootTreeHash) : M unit :=
  let h := sha256_Sum256 W (pb.Rth rth ++ pb.Nonce rth) in
  k <- deref rsaVerPub ;;
  _ <- match rsa_VerifyPKCS1v15 W k crypto.SHA256 h (pb.Sig rth) with
       | Some e => emit (LogVerifyFailed e)
       | None => ret tt
       end ;;
  emit (LogVerified (pb.Rth rth)).

(** Lines 132-142: one line of [records.csv]. *)
Definition recordLine (ctDB : gmap bytes bytes) (text : string) : M (gmap bytes bytes) :=
  let line := strings.Split text "," in
  field <- index line 1 ;;
  let '(ct, err) := base64_DecodeString W field in
  let ctSum := sha256_Sum256 W ct in
  match err with
  | Some e => fatal e
  | None => ret (<[ctSum := ct]> ctDB)
  end.

(** Lines 122-146: the ciphertext table. *)
Definition loadRecords : M (gmap bytes bytes) :=
  match open_records W with
  | Err e => fatal e
  | Ok file =>
      ctDB <- forEach recordLine (lines file) ∅ ;;
      match scanErr file with
      | Some e => fatal e
      | None => ret ctDB
      end
  end.

(** The two proof maps of lines 155-156. *)
Record ProofDBs := {
  presenceDB : gmap string string;
  extensionDB : gmap string string
}.

(** Lines 167-170: the lookup key of a proof line. *)
Definition lookupKey (digestHex : string) : bytes :=
  let ctSum := zero32 in
  let '(ctSumSlice, _) := hex.DecodeString digestHex in
  copy ctSum ctSumSlice.

(** Lines 177-182: the answer to a request is logged when it is an error
    and printed, with the first byte of the plaintext, when it is not. *)
Definition reportOutcome (ctSum : bytes) (r : result pb.Record_) : M unit :=
  match r with
  | Err e => emit (LogCouldNotDecrypt e)
  | Ok rec =>
      first <- index (pb.Plaintext rec) 0 ;;
      emit (PrintDecryptRecord ctSum first)
  end.

(** Lines 162-182: one line of [records_proofs.csv]. *)
Definition proofLine (ctDB : gmap bytes bytes) (dbs : ProofDBs) (text : string)
  : M ProofDBs :=
  let line := strings.Split text " " in
  l0 <- index line 0 ;;
  l1 <- index line 1 ;;
  let presenceDB' := <[l0 := l1]> (presenceDB dbs) in
  l2 <- index line 2 ;;
  let extensionDB' := <[l0 := l2]> (extensionDB dbs) in
  let ctSum := lookupKey l0 in
  let ct := default [] (ctDB !! ctSum) in
  let pop := l1 in
  let poe := l2 in
  r <- decryptRecord
    {| pb.Ciphertext := ct; pb.ProofOfPresence := pop; pb.ProofOfExtension := poe |} ;;
  _ <- reportOutcome ctSum r ;;
  ret {| presenceDB := presenceDB'; extensionDB := extensionDB' |}.

(** Lines 149-188: the proof table, each line answered by a
    [DecryptRecord] call. *)
Definition processProofs (ctDB : gmap bytes bytes) : M ProofDBs :=
  match open_records_proofs W with
  | Err e => fatal e
  | Ok proofFile =>
      dbs <- forEach (proofLine ctDB) (lines proofFile)
               {| presenceDB := ∅; extensionDB := ∅ |} ;;
      match scanErr proofFile with
      | Some e => fatal e
      | None => ret dbs
      end
  end.

(** Lines 112-188: everything that follows the import of the keys. *)
Definition session (rsaVerPub : option rsa.PublicKey) (rth : pb.RootTreeHash) : M unit :=
  _ <- verifyRTH rsaVerPub rth ;;
  ctDB <- loadRecords ;;
  _ <- processProofs ctDB ;;
  ret tt.

Definition main : M unit :=
  _ <- dial ;;
  rth <- getRootTreeHash ;;
  pk <- getPublicKey ;;
  '(rsaEncPub, rsaVerPub) <- importKeys pk ;;
  '(sampleCiphertext, samplePKCS1v15CT) <- encryptionTest rsaEncPub ;;
  _ <- specTest sampleCiphertext samplePKCS1v15CT ;;
  session rsaVerPub rth.

Definition start : State := {| trace := []; calls := 0 |}.

(** The run of the program. *)
Definition run : (Exit + unit) * State := main start.

End Client.

(** ** A small world to run the program in

    The inputs of a run are the server's answers and the two files.  The
    library functions of this world have the signatures of the Go ones and
    behave like them on the cases the client distinguishes (a block is found
    or not, a key parses or not and is RSA or not, a message fits the key or
    not, a signature verifies or not).  They are stand-ins: the runs computed
    in this world show the program at work on given inputs, and each of them
    comes with a theorem that holds in every world. *)

Module Fixture.

Fixpoint startsWith (p b : bytes) : bool :=
  match p, b with
  | [], _ => true
  | x :: p', y :: b' => Byte.eqb x y && startsWith p' b'
  | _ :: _, [] => false
  end.

Definition pemHeader : bytes := bytes_of_string "-----BEGIN PUBLIC KEY-----".

(** A block is found when the armour line is there. *)
Definition findBlock (data : bytes) : option pem.Block :=
  if startsWith pemHeader data
  then Some {| pem.Type_ := "PUBLIC KEY"; pem.Bytes := drop (length pemHeader) data |}
  else None.

(** A stand-in for DER: ["R"] and a decimal bit length for an RSA key of
    that many bits, ["E"] for an elliptic-curve key. *)
Fixpoint decimal (acc : Z) (b : bytes) : option Z :=
  match b with
  | [] => Some acc
  | d :: rest =>
      let n := Z.of_N (Byte.to_N d) in
      if (48 <=? n)%Z && (n <=? 57)%Z then decimal (10 * acc + (n - 48)) rest else None
  end.

Definition parseKey (der : bytes) : result x509.PublicKey :=
  match der with
  | "R"%byte :: digits =>
      match decimal 0 digits with
      | Some bits =>
          if (0 <? bits)%Z
          then Ok (x509.RSA {| rsa.N := 2 ^ (bits - 1) + 1; rsa.E := 65537 |})
          else Err "x509: RSA modulus is not a positive number"
      | None => Err "asn1: structure error"
      end
  | "E"%byte :: _ => Ok (x509.Other "ECDSA")
  | _ => Err "asn1: structure error"
  end.

Definition keyBytes (k : rsa.PublicKey) : Z := (rsa.BitLen k + 7) / 8.

(** OAEP with SHA-256 takes messages of at most [k - 2*32 - 2] bytes. *)
Definition encryptOAEP (k : rsa.PublicKey) (msg label : bytes) : result bytes :=
  if (Z.of_nat (length msg) <=? keyBytes k - 2 * 32 - 2)%Z
  then Ok (rev msg)
  else Err "crypto/rsa: message too long for RSA public key size".

(** PKCS#1 v1.5 takes messages of at most [k - 11] bytes. *)
Definition encryptPKCS1v15 (k : rsa.PublicKey) (msg : bytes) : result bytes :=
  if (Z.of_nat (length msg) <=? keyBytes k - 11)%Z
  then Ok (rev msg)
  else Err "crypto/rsa: message too long for RSA public key size".

(** A signature verifies when it is the digest written twice. *)
Definition verifyPKCS1v15 (k : rsa.PublicKey) (h : crypto.Hash)
    (hashed sig : bytes) : option error :=
  if decide (sig = hashed ++ hashed) then None
  else Some "crypto/rsa: verification error".

(** A 32-byte digest: the message cut or zero-padded to 32 bytes. *)
Fixpoint pad (n : nat) (m : bytes) : bytes :=
  match n with
  | O => []
  | S n' =>
      match m with
      | [] => x00 :: pad n' []
      | b :: m' => b :: pad n' m'
      end
  end.

Fixpoint pad_length (n : nat) (m : bytes) : length (pad n m) = n :=
  match n with
  | O => eq_refl
  | S n' =>
      match m with
      | [] => f_equal S (pad_length n' [])
      | b :: m' => f_equal S (pad_length n' m')
      end
  end.

Definition digest (m : bytes) : bytes := pad 32 m.

Definition digest_Size (m : bytes) : length (digest m) = 32 := pad_length 32 m.

Definition b64val (c : ascii) : option N :=
  let n := N_of_ascii c in
  if (65 <=? n)%N && (n <=? 90)%N then Some (n - 65)%N
  else if (97 <=? n)%N && (n <=? 122)%N then Some (n - 97 + 26)%N
  else if (48 <=? n)%N && (n <=? 57)%N then Some (n - 48 + 52)%N
  else if (n =? 43)%N then Some 62%N
  else if (n =? 47)%N then Some 63%N
  else None.

Definition toByte (n : N) : byte := byte_of_ascii (ascii_of_N (n mod 256)).

Definition illegal : option error := Some "illegal base64 data".

(** Standard base64 with padding, four characters at a time. *)
Fixpoint decodeBase64 (s : string) : bytes * option error :=
  match s with
  | EmptyString => ([], None)
  | String c1 (String c2 (String c3 (String c4 rest))) =>
      match b64val c1, b64val c2 with
      | Some v1, Some v2 =>
          let b1 := toByte (v1 * 4 + v2 / 16) in
          match b64val c3, b64val c4 with
          | Some v3, Some v4 =>
              let '(out, err) := decodeBase64 rest in
              (b1 :: toByte (v2 * 16 + v3 / 4) :: toByte (v3 * 64 + v4) :: out, err)
          | Some v3, None =>
              if Ascii.eqb c4 "=" && String.eqb rest ""
              then ([b1; toByte (v2 * 16 + v3 / 4)], None)
              else ([], illegal)
          | None, _ =>
              if Ascii.eqb c3 "=" && Ascii.eqb c4 "=" && String.eqb rest ""
              then ([b1], None)
              else ([], illegal)
          end
      | _, _ => ([], illegal)
      end
  | _ => ([], illegal)
  end.

Definition pemOf (der : string) : bytes := pemHeader ++ bytes_of_string der.

(** The world of a session: the server's three answers and the two files. *)
Definition world (rth : pb.RootTreeHash) (pk : pb.Quote)
    (oracle : nat -> pb.DecryptionRequest -> result pb.Record_)
    (records proofs : list string) : World :=
  {| Dial := None;
     GetRootTreeHash := fun _ => Ok rth;
     sigSpare := [];
     GetPublicKey := fun _ => Ok pk;
     DecryptRecord := oracle;
     open_records := Ok {| lines := records; scanErr := None |};
     open_records_proofs := Ok {| lines := proofs; scanErr := None |};
     pem_Decode := findBlock;
     x509_ParsePKIXPublicKey := parseKey;
     rsa_EncryptOAEP := encryptOAEP;
     rsa_EncryptPKCS1v15 := encryptPKCS1v15;
     rsa_VerifyPKCS1v15 := verifyPKCS1v15;
     sha256_Sum256 := digest;
     sha256_Size := digest_Size;
     base64_DecodeString := decodeBase64 |}.

(** The commitment an honest server signs for [nonce]. *)
Definition commitment (rootHash nonce : bytes) : pb.RootTreeHash :=
  let h := digest (rootHash ++ nonce) in
  {| pb.Rth := rootHash; pb.Nonce := nonce; pb.Sig := h ++ h |}.

Definition quote (encDER verDER : string) : pb.Quote :=
  {| pb.Quote_ := bytes_of_string "quote";
     pb.RSA_EncryptionKey := pemOf encDER;
     pb.RSA_VerificationKey := pemOf verDER |}.

(** An oracle that answers every request with the ciphertext it was sent,
    or rejects an empty one. *)
Definition echo (n : nat) (req : pb.DecryptionRequest) : result pb.Record_ :=
  match pb.Ciphertext req with
  | [] => Err "rpc error: empty ciphertext"
  | ct => Ok {| pb.Plaintext := ct |}
  end.

Definition rootHash : bytes := replicate 32 "r"%byte.
Definition sentNonce : bytes := bytes_of_string "aaaaaaaaa".

(** Two records, ["hello"] and ["world"], and their proofs: in this world a
    digest is the padded message, so the proof lines name them by the hex
    of their first bytes. *)
Definition records : list string := ["A1B2,aGVsbG8="; "C3D4,d29ybGQ="].
Definition proofs : list string :=
  ["68656c6c6f popToken poeToken"; "776f726c64 pop2 poe2"].

Definition request (ct : string) (pop poe : string) : pb.DecryptionRequest :=
  {| pb.Ciphertext := bytes_of_string ct;
     pb.ProofOfPresence := pop; pb.ProofOfExtension := poe |}.

(** An honest server and sound files. *)
Definition honest : World :=
  world (commitment rootHash sentNonce) (quote "R2048" "R2048") echo records proofs.

(** The server answers with a signature that does not verify. *)
Definition forged : World :=
  world {| pb.Rth := rootHash; pb.Nonce := sentNonce; pb.Sig := replicate 64 x00 |}
    (quote "R2048" "R2048") echo records proofs.

(** The server answers with a commitment it signed for another nonce. *)
Definition otherNonce : bytes := bytes_of_string "bbbbbbbbb".
Definition replayed : World :=
  world (commitment rootHash otherNonce) (quote "R2048" "R2048") echo records proofs.

(** The proof table names a digest the ciphertext table does not hold. *)
Definition unmatched : World :=
  world (commitment rootHash sentNonce) (quote "R2048" "R2048") echo records
    ["68656c6c6f popToken poeToken"; "00ff pop9 poe9"; "776f726c64 pop2 poe2"].


(** The first proof line has a digest that is not hexadecimal. *)
Definition badHex : World :=
  world (commitment rootHash sentNonce) (quote "R2048" "R2048") echo records
    ["68zz popToken poeToken"; "776f726c64 pop2 poe2"].

(** Both keys are RSA keys of 1024 bits. *)
Definition weakKeys : World :=
  world (commitment rootHash sentNonce) (quote "R1024" "R1024") echo records proofs.

(** The second line of the ciphertext table is not base64. *)
Definition corrupt : World :=
  world (commitment rootHash sentNonce) (quote "R2048" "R2048") echo
    ["A1B2,aGVsbG8="; "C3D4,d29$bGQ="] proofs.

(** The oracle rejects the first request it receives. *)
Definition rejectFirst (n : nat) (req : pb.DecryptionRequest) : result pb.Record_ :=
  match n with
  | O => Err "rpc error: OracleRejected"
  | S _ => echo n req
  end.

Definition rejecting : World :=
  world (commitment rootHash sentNonce) (quote "R2048" "R2048") rejectFirst records proofs.


End Fixture.

(** ** Reading a trace *)

(** The decrypt requests of a trace, in the order they were sent. *)
Definition decryptRequests (tr : list Event) : list pb.DecryptionRequest :=
  omap (fun ev => match ev with CallDecryptRecord req => Some req | _ => None end) tr.

(** The outcome events of a trace: one log line per rejected request, one
    printed line per answered one. *)
Definition isOutcome (ev : Event) : bool :=
  match ev with
  | LogCouldNotDecrypt _ | PrintDecryptRecord _ _ => true
  | _ => false
  end.

Definition outcomes (tr : list Event) : list Event := List.filter isOutcome tr.

(** The state after [evs] were appended and [n] more [DecryptRecord] calls
    were made. *)
Definition advance (s : State) (evs : list Event) (n : nat) : State :=
  {| trace := trace s ++ evs; calls := calls s + n |}.

(** A proof-table line as the specification has it: at least the three
    fields [hexDigest presenceToken extensionToken]. *)
Definition threeFields (text : string) : Prop :=
  exists l0 l1 l2 rest, strings.Split text " " = l0 :: l1 :: l2 :: rest.

(** What the verification step adds to the log: the warning, when the
    signature check returned an error, and in both cases the line that
    announces the hash as verified. *)
Definition verdict (W : World) (k : rsa.PublicKey) (rth : pb.RootTreeHash) : list Event :=
  match rsa_VerifyPKCS1v15 W k crypto.SHA256
          (sha256_Sum256 W (pb.Rth rth ++ pb.Nonce rth)) (pb.Sig rth) with
  | Some e => [LogVerifyFailed e; LogVerified (pb.Rth rth)]
  | None => [LogVerified (pb.Rth rth)]
  end.

Definition isVerifyFailed (ev : Event) : bool :=
  match ev with
  | LogVerifyFailed _ => true
  | _ => false
  end.

(** The events of a trace that follow its first failed verification. *)
Fixpoint afterVerifyFailed (tr : list Event) : list Event :=
  match tr with
  | [] => []
  | ev :: rest => if isVerifyFailed ev then rest else afterVerifyFailed rest
  end.

(** The field of a line that the loader reads: the second of its
    comma-separated fields. *)
Definition ciphertextField (text : string) : option string :=
  strings.Split text "," !! 1.

(** The request that a proof line with fields [l0 l1 l2] gives rise to: the
    ciphertext found under the line's key, or none, and the two tokens. *)
Definition requestOf (ctDB : gmap bytes bytes) (l0 l1 l2 : string) : pb.DecryptionRequest :=
  {| pb.Ciphertext := default [] (ctDB !! lookupKey l0);
     pb.ProofOfPresence := l1;
     pb.ProofOfExtension := l2 |}.

(** The proof maps after the line was stored. *)
Definition storeProofs (dbs : ProofDBs) (l0 l1 l2 : string) : ProofDBs :=
  {| presenceDB := <[l0 := l1]> (presenceDB dbs);
     extensionDB := <[l0 := l2]> (extensionDB dbs) |}.

(** Every plaintext the oracle sends back has a first byte. *)
Definition answersNonEmpty (W : World) : Prop :=
  forall n req rec, DecryptRecord W n req = Ok rec -> pb.Plaintext rec <> [].

(** The same world, reading another ciphertext table. *)
Definition withRecords (W : World) (file : Scanned) : World :=
  {| Dial := Dial W;
     GetRootTreeHash := GetRootTreeHash W;
     sigSpare := sigSpare W;
     GetPublicKey := GetPublicKey W;
     DecryptRecord := DecryptRecord W;
     open_records := Ok file;
     open_records_proofs := open_records_proofs W;
     pem_Decode := pem_Decode W;
     x509_ParsePKIXPublicKey := x509_ParsePKIXPublicKey W;
     rsa_EncryptOAEP := rsa_EncryptOAEP W;
     rsa_EncryptPKCS1v15 := rsa_EncryptPKCS1v15 W;
     rsa_VerifyPKCS1v15 := rsa_VerifyPKCS1v15 W;
     sha256_Sum256 := sha256_Sum256 W;
     sha256_Size := sha256_Size W;
     base64_DecodeString := base64_DecodeString W |}.

(** The number of occurrences of [sep] in [s]. *)
Fixpoint countSep (sep : ascii) (s : string) : nat :=
  match s with
  | EmptyString => 0
  | String c rest => (if Ascii.eqb c sep then 1 else 0) + countSep sep rest
  end.

(** The request of a proof line, when the line has its three fields. *)
Definition requestOfLine (ctDB : gmap bytes bytes) (text : string)
  : option pb.DecryptionRequest :=
  match strings.Split text " " with
  | l0 :: l1 :: l2 :: _ => Some (requestOf ctDB l0 l1 l2)
  | _ => None
  end.

(** The ciphertext of a line of the ciphertext table, when the line has a
    second field and the field decodes. *)
Definition ciphertextOf (W : World) (text : string) : option bytes :=
  match ciphertextField text with
  | Some field =>
      match base64_DecodeString W field with
      | (ct, None) => Some ct
      | (_, Some _) => None
      end
  | None => None
  end.

(** The last of the ciphertexts [cts] whose digest is [key], or [acc] when
    there is none. *)
Fixpoint latest (W : World) (key : bytes) (cts : list bytes) (acc : option bytes)
  : option bytes :=
  match cts with
  | [] => acc
  | ct :: rest =>
      latest W key rest (if decide (sha256_Sum256 W ct = key) then Some ct else acc)
  end.

(** The same world, reading another proof table. *)
Definition withProofs (W : World) (proofFile : Scanned) : World :=
  {| Dial := Dial W;
     GetRootTreeHash := GetRootTreeHash W;
     sigSpare := sigSpare W;
     GetPublicKey := GetPublicKey W;
     DecryptRecord := DecryptRecord W;
     open_records := open_records W;
     open_records_proofs := Ok proofFile;
     pem_Decode := pem_Decode W;
     x509_ParsePKIXPublicKey := x509_ParsePKIXPublicKey W;
     rsa_EncryptOAEP := rsa_EncryptOAEP W;
     rsa_EncryptPKCS1v15 := rsa_EncryptPKCS1v15 W;
     rsa_VerifyPKCS1v15 := rsa_VerifyPKCS1v15 W;
     sha256_Sum256 := sha256_Sum256 W;
     sha256_Size := sha256_Size W;
     base64_DecodeString := base64_DecodeString W |}.

(** The index that the ciphertexts [cts], stored one after the other, leave
    in [ctDB]. *)
Definition storeAll (W : World) (ctDB : gmap bytes bytes) (cts : list bytes)
  : gmap bytes bytes :=
  foldl (fun m ct => <[sha256_Sum256 W ct := ct]> m) ctDB cts.

(** No two different ciphertexts of [cts] have the same digest. *)
Definition collisionFree (W : World) (cts : list bytes) : Prop :=
  forall ct1 ct2, In ct1 cts -> In ct2 cts ->
    sha256_Sum256 W ct1 = sha256_Sum256 W ct2 -> ct1 = ct2.

(** Lines 36-110 of [main]: everything that precedes the verification, with
    the verification key and the commitment it hands to the session. *)
Definition prelude (W : World) : M (option rsa.PublicKey * pb.RootTreeHash) :=
  (_ <- dial W ;;
   rth <- getRootTreeHash W ;;
   pk <- getPublicKey W ;;
   keys <- importKeys W pk ;;
   cts <- encryptionTest W (fst keys) ;;
   _ <- specTest W (fst cts) (snd cts) ;;
   ret (snd keys, rth))%go.

(** A computation that sends no decrypt request. *)
Definition quiet {A} (m : M A) : Prop :=
  forall s r s', m s = (r, s') ->
    decryptRequests (trace s') = decryptRequests (trace s) /\ calls s' = calls s.

(** The first fields of the proof lines, as a set. *)
Definition digestFields (xs : list string) : gset string :=
  list_to_set (omap (fun text => strings.Split text " " !! 0) xs).

(** ** The libraries on small inputs *)

Example hex_ok : hex.DecodeString "00ff1A" = ([x00; xff; x1a], None).
Proof. reflexivity. Qed.

Example hex_bad_char : hex.DecodeString "abzz01" = ([xab], Some (hex.InvalidByteError "z")).
Proof. reflexivity. Qed.

Example hex_odd : hex.DecodeString "abc" = ([xab], Some hex.ErrLength).
Proof. reflexivity. Qed.

Example split_3 : strings.Split "ab cd ef" " " = ["ab"; "cd"; "ef"].
Proof. reflexivity. Qed.

Example split_empty : strings.Split "" "," = [""].
Proof. reflexivity. Qed.

Example split_trailing : strings.Split "a,,b," "," = ["a"; ""; "b"; ""].
Proof. reflexivity. Qed.

Example base64_hello : Fixture.decodeBase64 "aGVsbG8=" = (bytes_of_string "hello", None).
Proof. reflexivity. Qed.

Example base64_bad : snd (Fixture.decodeBase64 "aGV$bG8=") = Fixture.illegal.
Proof. reflexivity. Qed.

(** ** Laws of runs *)

Lemma bind_ret_l {A B} (a : A) (k : A -> M B) s : bind (ret a) k s = k a s.
Proof. reflexivity. Qed.

Lemma bind_exit {A B} (x : Exit) (k : A -> M B) s : bind (exit x) k s = (inl x, s).
Proof. reflexivity. Qed.

Lemma bind_assoc {A B C} (m : M A) (k : A -> M B) (h : B -> M C) s :
  bind (bind m k) h s = bind m (fun a => bind (k a) h) s.
Proof. unfold bind. destruct (m s) as [[x|a] s']; reflexivity. Qed.

Lemma bind_inr {A B} (m : M A) (k : A -> M B) s a s' :
  m s = (inr a, s') -> bind m k s = k a s'.
Proof. intros H. unfold bind. rewrite H. reflexivity. Qed.

Lemma bind_inl {A B} (m : M A) (k : A -> M B) s x s' :
  m s = (inl x, s') -> bind m k s = (inl x, s').
Proof. intros H. unfold bind. rewrite H. reflexivity. Qed.

Lemma advance_0 s : advance s [] 0 = s.
Proof.
  destruct s as [tr n]. unfold advance. simpl.
  rewrite app_nil_r, Nat.add_0_r. reflexivity.
Qed.

Lemma advance_advance s evs n evs' n' :
  advance (advance s evs n) evs' n' = advance s (evs ++ evs') (n + n').
Proof.
  unfold advance. simpl. rewrite <- app_assoc, Nat.add_assoc. reflexivity.
Qed.

Lemma emit_advance ev s : emit ev s = (inr tt, advance s [ev] 0).
Proof. unfold emit, advance. rewrite Nat.add_0_r. reflexivity. Qed.

(** A loop over [xs ++ ys] is the loop over [xs] followed, unless it stopped
    the program, by the loop over [ys]. *)
Lemma forEach_app {A S} (body : S -> A -> M S) xs ys acc s :
  forEach body (xs ++ ys) acc s =
  bind (forEach body xs acc) (forEach body ys) s.
Proof.
  revert acc s. induction xs as [|x xs IH]; intros acc s; simpl.
  - reflexivity.
  - unfold bind. destruct (body acc x s) as [[e|acc'] s']; [reflexivity|].
    rewrite IH. reflexivity.
Qed.

(** ** Key import (lines 57-71) *)

Section KeyImport.

Variable W : World.


Lemma parseBlock_some b s :
  parseBlock W (Some b) s =
  match x509_ParsePKIXPublicKey W (pem.Bytes b) with
  | Err e => (inl (Panicked (parsePanic e)), s)
  | Ok pub => (inr pub, s)
  end.
Proof.
  unfold parseBlock. simpl. rewrite bind_ret_l.
  destruct (x509_ParsePKIXPublicKey W (pem.Bytes b)); reflexivity.
Qed.



(** Whatever parses is imported. *)
Lemma importKeys_parsed pk be bv encPub verPub s :
  pem_Decode W (pb.RSA_EncryptionKey pk) = Some be ->
  pem_Decode W (pb.RSA_VerificationKey pk) = Some bv ->
  x509_ParsePKIXPublicKey W (pem.Bytes be) = Ok encPub ->
  x509_ParsePKIXPublicKey W (pem.Bytes bv) = Ok verPub ->
  importKeys W pk s = (inr (assertRSA encPub, assertRSA verPub), s).
Proof.
  intros Hbe Hbv He Hv. unfold importKeys. rewrite Hbe, Hbv.
  assert (Pe : parseBlock W (Some be) s = (inr encPub, s))
    by (rewrite parseBlock_some, He; reflexivity).
  assert (Pv : parseBlock W (Some bv) s = (inr verPub, s))
    by (rewrite parseBlock_some, Hv; reflexivity).
  rewrite (bind_inr _ _ _ _ _ Pe), (bind_inr _ _ _ _ _ Pv). reflexivity.
Qed.

End KeyImport.



(** C5, as the code has it.  Import rejects a framed key only when its DER
    payload does not parse, and by a panic; it has no size policy: two
    framed RSA keys are imported whatever the length of their moduli. *)
Theorem C5_import_has_no_size_policy (W : World) (pk : pb.Quote)
    (be bv : pem.Block) (s : State) :
  pem_Decode W (pb.RSA_EncryptionKey pk) = Some be ->
  pem_Decode W (pb.RSA_VerificationKey pk) = Some bv ->
  (forall ke kv,
     x509_ParsePKIXPublicKey W (pem.Bytes be) = Ok (x509.RSA ke) ->
     x509_ParsePKIXPublicKey W (pem.Bytes bv) = Ok (x509.RSA kv) ->
     importKeys W pk s = (inr (Some ke, Some kv), s)) /\
  (forall e,
     x509_ParsePKIXPublicKey W (pem.Bytes be) = Err e ->
     importKeys W pk s = (inl (Panicked (parsePanic e)), s)) /\
  (forall encPub e,
     x509_ParsePKIXPublicKey W (pem.Bytes be) = Ok encPub ->
     x509_ParsePKIXPublicKey W (pem.Bytes bv) = Err e ->
     importKeys W pk s = (inl (Panicked (parsePanic e)), s)).
Proof.
  intros Hbe Hbv. split; [|split].
  - intros ke kv He Hv.
    apply (importKeys_parsed W pk be bv _ _ s Hbe Hbv He Hv).
  - intros e He. unfold importKeys. rewrite Hbe. unfold bind.
    rewrite parseBlock_some, He. reflexivity.
  - intros encPub e He Hv. unfold importKeys. rewrite Hbe, Hbv. unfold bind.
    rewrite parseBlock_some, He, parseBlock_some, Hv. reflexivity.
Qed.

Lemma C5_witness :
  let be := {| pem.Type_ := "PUBLIC KEY"; pem.Bytes := bytes_of_string "R1024" |} in
  let k := {| rsa.N := 2 ^ 1023 + 1; rsa.E := 65537 |} in
  pem_Decode Fixture.weakKeys (pb.RSA_EncryptionKey (Fixture.quote "R1024" "R1024")) = Some be /\
  x509_ParsePKIXPublicKey Fixture.weakKeys (pem.Bytes be) = Ok (x509.RSA k) /\
  importKeys Fixture.weakKeys (Fixture.quote "R1024" "R1024") start =
    (inr (Some k, Some k), start).
Proof.
  intros be k. split; [reflexivity|]. split; [reflexivity|].
  apply (C5_import_has_no_size_policy Fixture.weakKeys
           (Fixture.quote "R1024" "R1024") be be start eq_refl eq_refl);
    reflexivity.
Defined.

(** C5 fails as stated: two RSA keys of 1024 bits are imported, and the
    program runs to its end with them, sending its decrypt requests. *)
Lemma C5_weak_keys_are_imported :
  exists k,
    rsa.BitLen k = 1024%Z /\
    importKeys Fixture.weakKeys (Fixture.quote "R1024" "R1024") start =
      (inr (Some k, Some k), start) /\
    fst (run Fixture.weakKeys) = inr tt /\
    decryptRequests (trace (snd (run Fixture.weakKeys))) =
      [Fixture.request "hello" "popToken" "poeToken";
       Fixture.request "world" "pop2" "poe2"].
Proof.
  exists {| rsa.N := 2 ^ 1023 + 1; rsa.E := 65537 |}.
  repeat split; vm_compute; reflexivity.
Qed.

(** ** Verification of the root tree hash (lines 112-119) *)

Lemma verifyRTH_nil W rth s :
  verifyRTH W None rth s = (inl (Panicked NilDereference), s).
Proof. reflexivity. Qed.

Lemma verifyRTH_key W k rth s :
  verifyRTH W (Some k) rth s = (inr tt, advance s (verdict W k rth) 0).
Proof.
  unfold verifyRTH, verdict. simpl. rewrite bind_ret_l.
  destruct (rsa_VerifyPKCS1v15 W k crypto.SHA256 _ (pb.Sig rth)) as [e|].
  - unfold bind. rewrite !emit_advance, advance_advance. reflexivity.
  - rewrite bind_ret_l, emit_advance. reflexivity.
Qed.

(** The session goes on after the verification step, whatever its verdict. *)
Lemma session_after_verification W k rth s :
  session W (Some k) rth s =
  bind (loadRecords W)
       (fun ctDB => bind (processProofs W ctDB) (fun _ => ret tt))
       (advance s (verdict W k rth) 0).
Proof. unfold session. rewrite (bind_inr _ _ _ _ _ (verifyRTH_key W k rth s)). reflexivity. Qed.

(** C2, as the code has it.  Verification has no freshness step: for every
    commitment, whatever its nonce, the step reports a failure exactly when
    the PKCS#1 v1.5 check of the signature over
    [sha256 (rootHash ++ commitment.nonce)] returns an error, and it returns
    to the caller in both cases. *)
Theorem C2_verification_checks_signature_only (W : World) (k : rsa.PublicKey)
    (rth : pb.RootTreeHash) (s : State) :
  exists s',
    verifyRTH W (Some k) rth s = (inr tt, s') /\
    trace s' = trace s ++ verdict W k rth /\
    (existsb isVerifyFailed (verdict W k rth) = true <->
     rsa_VerifyPKCS1v15 W k crypto.SHA256
       (sha256_Sum256 W (pb.Rth rth ++ pb.Nonce rth)) (pb.Sig rth) <> None).
Proof.
  exists (advance s (verdict W k rth) 0). split; [apply verifyRTH_key|].
  split; [reflexivity|].
  unfold verdict.
  destruct (rsa_VerifyPKCS1v15 W k crypto.SHA256 _ (pb.Sig rth)) as [e|]; simpl.
  - split; [discriminate|reflexivity].
  - split; [discriminate|]. intros H. exfalso. apply H. reflexivity.
Qed.

(** C2 fails as stated: the client sends the nonce ["aaaaaaaaa"], the server
    answers with a commitment signed for ["bbbbbbbbb"], and the program
    reports no failure, announces the hash as verified and sends its decrypt
    requests. *)
Lemma C2_replayed_commitment_is_accepted :
  let tr := trace (snd (run Fixture.replayed)) in
  GetRootTreeHash Fixture.replayed Fixture.sentNonce =
    Ok (Fixture.commitment Fixture.rootHash Fixture.otherNonce) /\
  Fixture.otherNonce <> Fixture.sentNonce /\
  In (CallGetRootTreeHash Fixture.sentNonce) tr /\
  existsb isVerifyFailed tr = false /\
  In (LogVerified Fixture.rootHash) tr /\
  decryptRequests tr =
    [Fixture.request "hello" "popToken" "poeToken";
     Fixture.request "world" "pop2" "poe2"].
Proof.
  split; [reflexivity|]. split; [discriminate|].
  split; [vm_compute; tauto|]. split; [vm_compute; reflexivity|].
  split; [vm_compute; tauto|]. vm_compute. reflexivity.
Qed.

(** C1 is not what the code does: with a signature that does not verify,
    the program logs the failure, logs the hash as verified all the same, and
    sends every decrypt request of the proof table after it. *)
Theorem C1_requests_follow_failed_verification :
  let tr := trace (snd (run Fixture.forged)) in
  fst (run Fixture.forged) = inr tt /\
  In (LogVerifyFailed "crypto/rsa: verification error") tr /\
  In (LogVerified Fixture.rootHash) (afterVerifyFailed tr) /\
  decryptRequests (afterVerifyFailed tr) =
    [Fixture.request "hello" "popToken" "poeToken";
     Fixture.request "world" "pop2" "poe2"].
Proof.
  split; [vm_compute; reflexivity|].
  split; [vm_compute; tauto|].
  split; [vm_compute; tauto|]. vm_compute. reflexivity.
Qed.

(** ** The ciphertext table (lines 122-146) *)

Section CiphertextIndex.

Variable W : World.

Lemma recordLine_spec (ctDB : gmap bytes bytes) text s :
  recordLine W ctDB text s =
  match ciphertextField text with
  | None => (inl (Panicked IndexOutOfRange), s)
  | Some field =>
      match snd (base64_DecodeString W field) with
      | Some e => (inl (Fatal e), s)
      | None =>
          let ct := fst (base64_DecodeString W field) in
          (inr (<[sha256_Sum256 W ct := ct]> ctDB), s)
      end
  end.
Proof.
  unfold recordLine, ciphertextField, index.
  destruct (strings.Split text "," !! 1) as [field|]; [|reflexivity].
  rewrite bind_ret_l.
  destruct (base64_DecodeString W field) as [ct [e|]]; reflexivity.
Qed.

(** The loader writes nothing to the trace. *)
Lemma records_loop_silent (xs : list string) (ctDB : gmap bytes bytes) s r s' :
  forEach (recordLine W) xs ctDB s = (r, s') -> s' = s.
Proof.
  revert ctDB. induction xs as [|text xs IH]; intros ctDB H; simpl in H.
  - inversion H. reflexivity.
  - unfold bind in H. rewrite recordLine_spec in H.
    destruct (ciphertextField text) as [field|]; [|inversion H; reflexivity].
    destruct (snd (base64_DecodeString W field)); [inversion H; reflexivity|].
    simpl in H. eapply IH, H.
Qed.

(** Nor does it read the state. *)
Lemma records_loop_any_state (xs : list string) (ctDB : gmap bytes bytes) s s0 r s' :
  forEach (recordLine W) xs ctDB s = (r, s') ->
  forEach (recordLine W) xs ctDB s0 = (r, s0).
Proof.
  revert ctDB. induction xs as [|text xs IH]; intros ctDB; simpl.
  - intros H. inversion H. reflexivity.
  - unfold bind. rewrite !recordLine_spec.
    destruct (ciphertextField text) as [field|]; [|intros H; inversion H; reflexivity].
    destruct (snd (base64_DecodeString W field)); [intros H; inversion H; reflexivity|].
    simpl. apply IH.
Qed.

(** A line that does not decode stops the loop: it ends in [log.Fatal] on
    a line that does not decode, or in the panic of a line without a
    second field that came before. *)
Lemma records_loop_corrupt (xs : list string) (ctDB : gmap bytes bytes) s text field e :
  In text xs -> ciphertextField text = Some field ->
  snd (base64_DecodeString W field) = Some e ->
  exists x, forEach (recordLine W) xs ctDB s = (inl x, s) /\
    ((exists text' field' e', In text' xs /\ ciphertextField text' = Some field' /\
        snd (base64_DecodeString W field') = Some e' /\ x = Fatal e') \/
     (exists text', In text' xs /\ ciphertextField text' = None /\
        x = Panicked IndexOutOfRange)).
Proof.
  revert ctDB. induction xs as [|t xs IH]; intros ctDB Hin Hf He; [destruct Hin|].
  simpl. unfold bind. rewrite recordLine_spec.
  destruct (ciphertextField t) as [field0|] eqn:Hf0.
  - destruct (snd (base64_DecodeString W field0)) as [e0|] eqn:He0.
    + exists (Fatal e0). split; [reflexivity|]. left.
      exists t, field0, e0. simpl. auto.
    + destruct Hin as [->|Hin]; [congruence|].
      destruct (IH (<[sha256_Sum256 W (fst (base64_DecodeString W field0))
                      := fst (base64_DecodeString W field0)]> ctDB) Hin Hf He)
        as (x & Hx & Hcase).
      exists x. split; [exact Hx|].
      destruct Hcase as [(t' & f' & e' & Hi & ? & ? & ?)|(t' & Hi & ? & ?)].
      * left. exists t', f', e'. simpl. auto.
      * right. exists t'. simpl. auto.
  - exists (Panicked IndexOutOfRange). split; [reflexivity|]. right.
    exists t. simpl. auto.
Qed.

(** Every entry the loop adds is stored under the digest of its own
    bytes, and these are the decoding of some line's second field. *)
Lemma records_loop_keys (xs : list string) (ctDB ctDB' : gmap bytes bytes) s s' :
  forEach (recordLine W) xs ctDB s = (inr ctDB', s') ->
  forall key ct, ctDB' !! key = Some ct ->
    ctDB !! key = Some ct \/
    (key = sha256_Sum256 W ct /\
     exists text field, In text xs /\ ciphertextField text = Some field /\
       base64_DecodeString W field = (ct, None)).
Proof.
  revert ctDB. induction xs as [|t xs IH]; intros ctDB H key ct Hk; simpl in H.
  - inversion H; subst. left. exact Hk.
  - unfold bind in H. rewrite recordLine_spec in H.
    destruct (ciphertextField t) as [field|] eqn:Hf; [|discriminate].
    destruct (base64_DecodeString W field) as [ct0 err] eqn:Hd. simpl in H.
    destruct err as [e|]; [discriminate|].
    destruct (IH _ H key ct Hk) as [Hold|(Hkey & t' & f' & Hi & Hf' & Hd')].
    + destruct (decide (sha256_Sum256 W ct0 = key)) as [Heq|Hne].
      * subst key. rewrite lookup_insert_eq in Hold. inversion Hold; subst ct0.
        right. split; [reflexivity|]. exists t, field. simpl. auto.
      * rewrite lookup_insert_ne in Hold by exact Hne. left. exact Hold.
    + right. split; [exact Hkey|]. exists t', f'. simpl. auto.
Qed.

(** A key, once in the index, stays in it. *)
Lemma records_loop_keeps (xs : list string) (ctDB ctDB' : gmap bytes bytes) s s' key :
  forEach (recordLine W) xs ctDB s = (inr ctDB', s') ->
  is_Some (ctDB !! key) -> is_Some (ctDB' !! key).
Proof.
  revert ctDB. induction xs as [|t xs IH]; intros ctDB H Hk; simpl in H.
  - inversion H; subst. exact Hk.
  - unfold bind in H. rewrite recordLine_spec in H.
    destruct (ciphertextField t) as [field|]; [|discriminate].
    destruct (snd (base64_DecodeString W field)); [discriminate|].
    simpl in H. apply (IH _ H).
    rewrite lookup_insert. case_decide; [eauto|exact Hk].
Qed.

(** The ciphertext of every line is in the index, under its digest. *)
Lemma records_loop_holds (xs : list string) (ctDB ctDB' : gmap bytes bytes) s s'
    text field ct :
  forEach (recordLine W) xs ctDB s = (inr ctDB', s') ->
  In text xs -> ciphertextField text = Some field ->
  base64_DecodeString W field = (ct, None) ->
  is_Some (ctDB' !! sha256_Sum256 W ct).
Proof.
  revert ctDB. induction xs as [|t xs IH]; intros ctDB H Hin Hf Hd; [destruct Hin|].
  simpl in H. unfold bind in H. rewrite recordLine_spec in H.
  destruct Hin as [->|Hin].
  - rewrite Hf, Hd in H. simpl in H.
    apply (records_loop_keeps _ _ _ _ _ _ H).
    rewrite lookup_insert_eq. eauto.
  - destruct (ciphertextField t) as [field0|]; [|discriminate].
    destruct (snd (base64_DecodeString W field0)); [discriminate|].
    simpl in H. apply (IH _ H Hin Hf Hd).
Qed.

(** The loop reads nothing of a line but its second field. *)
Lemma records_loop_labels (xs ys : list string) (ctDB : gmap bytes bytes) s :
  map ciphertextField xs = map ciphertextField ys ->
  forEach (recordLine W) xs ctDB s = forEach (recordLine W) ys ctDB s.
Proof.
  revert ys ctDB. induction xs as [|x xs IH]; intros [|y ys] ctDB Hmap;
    try discriminate; [reflexivity|].
  simpl in Hmap. injection Hmap as Hxy Hrest.
  simpl. unfold bind. rewrite !recordLine_spec, Hxy.
  destruct (ciphertextField y) as [field|]; [|reflexivity].
  destruct (snd (base64_DecodeString W field)); [reflexivity|].
  simpl. apply IH, Hrest.
Qed.

Lemma loadRecords_open file s :
  open_records W = Ok file ->
  loadRecords W s =
  bind (forEach (recordLine W) (lines file) ∅)
    (fun ctDB => match scanErr file with
                 | Some e => fatal e
                 | None => ret ctDB
                 end) s.
Proof. intros H. unfold loadRecords. rewrite H. reflexivity. Qed.

End CiphertextIndex.

(** C6. When a line of the ciphertext table fails to decode, the load hands
    back no index: it stops the program, through [log.Fatal] with the error
    of a line that does not decode, or through the panic of a line that has
    no second field at all, and the session goes no further. *)
Theorem C6_load_is_all_or_nothing (W : World) (file : Scanned)
    (text field : string) (e : error) (s : State) :
  open_records W = Ok file ->
  In text (lines file) ->
  ciphertextField text = Some field ->
  snd (base64_DecodeString W field) = Some e ->
  exists x,
    loadRecords W s = (inl x, s) /\
    ((exists text' field' e', In text' (lines file) /\
        ciphertextField text' = Some field' /\
        snd (base64_DecodeString W field') = Some e' /\ x = Fatal e') \/
     (exists text', In text' (lines file) /\ ciphertextField text' = None /\
        x = Panicked IndexOutOfRange)) /\
    (forall k rth, exists s', session W (Some k) rth s = (inl x, s') /\
        decryptRequests (trace s') = decryptRequests (trace s)).
Proof.
  intros Hopen Hin Hf He.
  destruct (records_loop_corrupt W (lines file) ∅ s text field e Hin Hf He)
    as (x & Hx & Hcase).
  assert (Hload : forall s0, loadRecords W s0 = (inl x, s0)).
  { intros s0. rewrite (loadRecords_open W file s0 Hopen).
    apply bind_inl. eapply records_loop_any_state, Hx. }
  exists x. split; [apply Hload|]. split; [exact Hcase|].
  intros k rth. exists (advance s (verdict W k rth) 0).
  rewrite session_after_verification. split.
  - apply bind_inl, Hload.
  - unfold advance, decryptRequests, verdict. simpl.
    rewrite omap_app.
    destruct (rsa_VerifyPKCS1v15 W k crypto.SHA256 _ (pb.Sig rth)); simpl;
      apply app_nil_r.
Qed.

(** ** The proof table (lines 149-188) *)

Section ProofTable.

Variable W : World.
Variable ctDB : gmap bytes bytes.

Lemma reportOutcome_err key e s :
  reportOutcome key (Err e) s = (inr tt, advance s [LogCouldNotDecrypt e] 0).
Proof. apply emit_advance. Qed.

Lemma reportOutcome_ok key rec s :
  reportOutcome key (Ok rec) s =
  match pb.Plaintext rec with
  | [] => (inl (Panicked IndexOutOfRange), s)
  | first :: _ => (inr tt, advance s [PrintDecryptRecord key first] 0)
  end.
Proof.
  unfold reportOutcome, index.
  destruct (pb.Plaintext rec) as [|first rest]; simpl; [reflexivity|].
  rewrite bind_ret_l. apply emit_advance.
Qed.

(** An outcome is one event, or the panic on an empty plaintext. *)
Lemma reportOutcome_cases key r s :
  (exists ev, isOutcome ev = true /\
     reportOutcome key r s = (inr tt, advance s [ev] 0)) \/
  (exists rec, r = Ok rec /\ pb.Plaintext rec = [] /\
     reportOutcome key r s = (inl (Panicked IndexOutOfRange), s)).
Proof.
  destruct r as [rec|e].
  - rewrite reportOutcome_ok. destruct (pb.Plaintext rec) as [|first rest] eqn:Hp.
    + right. exists rec. auto.
    + left. exists (PrintDecryptRecord key first). auto.
  - left. exists (LogCouldNotDecrypt e). rewrite reportOutcome_err. auto.
Qed.

Lemma decryptRecord_advance req s :
  decryptRecord W req s =
  (inr (DecryptRecord W (calls s) req), advance s [CallDecryptRecord req] 1).
Proof. unfold decryptRecord, advance. rewrite Nat.add_1_r. reflexivity. Qed.

(** A line with three fields is stored, its request is sent, and the
    answer is reported. *)
Lemma proofLine_fields dbs text l0 l1 l2 rest s :
  strings.Split text " " = l0 :: l1 :: l2 :: rest ->
  proofLine W ctDB dbs text s =
  bind (reportOutcome (lookupKey l0)
          (DecryptRecord W (calls s) (requestOf ctDB l0 l1 l2)))
       (fun _ => ret (storeProofs dbs l0 l1 l2))
       (advance s [CallDecryptRecord (requestOf ctDB l0 l1 l2)] 1).
Proof.
  intros Hsplit. unfold proofLine. rewrite Hsplit. unfold index. simpl.
  rewrite !bind_ret_l.
  rewrite (bind_inr _ _ _ _ _ (decryptRecord_advance _ s)). reflexivity.
Qed.

(** A line with fewer than three fields panics before anything is sent. *)
Lemma proofLine_short dbs text s :
  length (strings.Split text " ") < 3 ->
  proofLine W ctDB dbs text s = (inl (Panicked IndexOutOfRange), s).
Proof.
  intros Hlen. unfold proofLine.
  destruct (strings.Split text " ") as [|l0 [|l1 [|l2 rest]]]; simpl in *;
    try reflexivity; lia.
Qed.

(** A step that returns has sent one request and left one outcome. *)
Lemma proofLine_returns dbs text s dbs' s' :
  proofLine W ctDB dbs text s = (inr dbs', s') ->
  exists req ev, isOutcome ev = true /\
    s' = advance s [CallDecryptRecord req; ev] 1.
Proof.
  intros H.
  destruct (strings.Split text " ") as [|l0 [|l1 [|l2 rest]]] eqn:Hsplit;
    try (rewrite proofLine_short in H by (rewrite Hsplit; simpl; lia); discriminate).
  rewrite (proofLine_fields _ _ _ _ _ _ _ Hsplit) in H.
  destruct (reportOutcome_cases (lookupKey l0)
              (DecryptRecord W (calls s) (requestOf ctDB l0 l1 l2))
              (advance s [CallDecryptRecord (requestOf ctDB l0 l1 l2)] 1))
    as [(ev & Hev & Hr)|(rec & _ & _ & Hr)].
  - rewrite (bind_inr _ _ _ _ _ Hr) in H. inversion H; subst.
    exists (requestOf ctDB l0 l1 l2), ev. split; [exact Hev|].
    rewrite advance_advance. reflexivity.
  - rewrite (bind_inl _ _ _ _ _ Hr) in H. discriminate.
Qed.

Lemma outcomes_advance s ev req :
  isOutcome ev = true ->
  outcomes (trace (advance s [CallDecryptRecord req; ev] 1)) = outcomes (trace s) ++ [ev].
Proof.
  intros Hev. unfold outcomes, advance. simpl.
  rewrite List.filter_app. simpl. rewrite Hev. reflexivity.
Qed.

(** A loop that returns has left one outcome for each of its lines. *)
Lemma proofs_loop_returns (xs : list string) dbs s dbs' s' :
  forEach (proofLine W ctDB) xs dbs s = (inr dbs', s') ->
  length (outcomes (trace s')) = length (outcomes (trace s)) + length xs /\
  calls s' = calls s + length xs.
Proof.
  revert dbs s. induction xs as [|text xs IH]; intros dbs s H; simpl in H.
  - inversion H; subst. simpl. lia.
  - unfold bind in H.
    destruct (proofLine W ctDB dbs text s) as [[x|dbs1] s1] eqn:Hstep; [discriminate|].
    destruct (proofLine_returns _ _ _ _ _ Hstep) as (req & ev & Hev & ->).
    destruct (IH _ _ H) as [Hout Hcalls].
    rewrite Hout, Hcalls, (outcomes_advance s ev req Hev), length_app. simpl. lia.
Qed.

(** Well-formed lines and answers with a first byte: the loop returns. *)
Lemma proofs_loop_completes (xs : list string) dbs s :
  Forall threeFields xs -> answersNonEmpty W ->
  exists dbs' s', forEach (proofLine W ctDB) xs dbs s = (inr dbs', s').
Proof.
  intros Hxs Hne. revert dbs s.
  induction Hxs as [|text xs (l0 & l1 & l2 & rest & Hsplit) _ IH]; intros dbs s; simpl.
  - eauto.
  - unfold bind at 1. rewrite (proofLine_fields _ _ _ _ _ _ _ Hsplit).
    destruct (reportOutcome_cases (lookupKey l0)
                (DecryptRecord W (calls s) (requestOf ctDB l0 l1 l2))
                (advance s [CallDecryptRecord (requestOf ctDB l0 l1 l2)] 1))
      as [(ev & _ & Hr)|(rec & Hrec & Hempty & _)].
    + rewrite (bind_inr _ _ _ _ _ Hr). simpl. apply IH.
    + exfalso. exact (Hne _ _ _ Hrec Hempty).
Qed.

End ProofTable.

(** The key of a digest field that decodes to fewer than 32 bytes: the
    decoded bytes, then zeros. *)
Lemma lookupKey_short (l0 : string) :
  length (fst (hex.DecodeString l0)) < 32 ->
  lookupKey l0 =
  fst (hex.DecodeString l0) ++ replicate (32 - length (fst (hex.DecodeString l0))) x00.
Proof.
  intros Hlen. unfold lookupKey.
  destruct (hex.DecodeString l0) as [ctSumSlice err]. simpl in *.
  unfold copy, zero32. rewrite length_replicate, drop_replicate.
  rewrite take_ge by lia. reflexivity.
Qed.

Lemma lookupKey_length (l0 : string) : length (lookupKey l0) = 32.
Proof.
  unfold lookupKey. destruct (hex.DecodeString l0) as [ctSumSlice err].
  unfold copy, zero32.
  rewrite length_app, length_take, length_drop, !length_replicate. lia.
Qed.

Lemma copy_zero32 (src : bytes) : copy zero32 src = take 32 (src ++ replicate 32 x00).
Proof.
  unfold copy, zero32. rewrite length_replicate, drop_replicate.
  destruct (Nat.le_gt_cases 32 (length src)) as [Hge|Hlt].
  - rewrite take_app_le by lia.
    replace (32 - length src) with 0 by lia. simpl. rewrite app_nil_r. reflexivity.
  - rewrite take_app_ge by lia. rewrite (take_ge src) by lia.
    rewrite take_replicate. f_equal. f_equal. lia.
Qed.

Lemma lookupKey_take (l0 : string) :
  lookupKey l0 = take 32 (fst (hex.DecodeString l0) ++ replicate 32 x00).
Proof.
  unfold lookupKey. destruct (hex.DecodeString l0) as [src err]. apply copy_zero32.
Qed.



(** In the run of the program against an oracle that rejects the first
    request, both requests are sent and both outcomes are reported. *)
Example rejecting_run :
  fst (run Fixture.rejecting) = inr tt /\
  outcomes (trace (snd (run Fixture.rejecting))) =
    [LogCouldNotDecrypt "rpc error: OracleRejected";
     PrintDecryptRecord (Fixture.digest (bytes_of_string "world")) "w"].
Proof. split; vm_compute; reflexivity. Qed.

(** C9, as the code has it.  For a line with its three fields whose digest
    field decodes to fewer than 32 bytes, with or without a decoding error,
    the lookup key is the decoded bytes followed by zeros up to 32 bytes, and
    the line goes on with that key: its request carries the ciphertext found
    under it, and no malformed record is reported. *)
Theorem C9_short_digest_is_zero_padded (W : World) (ctDB : gmap bytes bytes)
    (dbs : ProofDBs) (text l0 l1 l2 : string) (rest : list string) (s : State) :
  strings.Split text " " = l0 :: l1 :: l2 :: rest ->
  length (fst (hex.DecodeString l0)) < 32 ->
  let decoded := fst (hex.DecodeString l0) in
  let key := decoded ++ replicate (32 - length decoded) x00 in
  let req := {| pb.Ciphertext := default [] (ctDB !! key);
                pb.ProofOfPresence := l1; pb.ProofOfExtension := l2 |} in
  lookupKey l0 = key /\
  length key = 32 /\
  proofLine W ctDB dbs text s =
    bind (reportOutcome key (DecryptRecord W (calls s) req))
         (fun _ => ret (storeProofs dbs l0 l1 l2))
         (advance s [CallDecryptRecord req] 1).
Proof.
  intros Hsplit Hlen decoded key req.
  assert (Hkey : lookupKey l0 = key) by exact (lookupKey_short l0 Hlen).
  split; [exact Hkey|]. split; [rewrite <- Hkey; apply lookupKey_length|].
  rewrite (proofLine_fields W ctDB _ _ _ _ _ _ _ Hsplit).
  unfold requestOf. rewrite Hkey. reflexivity.
Qed.

Lemma C9_witness :
  strings.Split "68zz popToken poeToken" " " = ["68zz"; "popToken"; "poeToken"] /\
  hex.DecodeString "68zz" = (["h"%byte], Some (hex.InvalidByteError "z")) /\
  lookupKey "68zz" = "h"%byte :: replicate 31 x00.
Proof.
  split; [reflexivity|]. split; [reflexivity|].
  apply (C9_short_digest_is_zero_padded Fixture.badHex ∅
           {| presenceDB := ∅; extensionDB := ∅ |}
           "68zz popToken poeToken" "68zz" "popToken" "poeToken" [] start eq_refl).
  vm_compute. lia.
Defined.

(** C9 fails as stated: a line whose digest field decodes to five bytes but
    which has two fields only never gets a lookup key; reading its third
    field panics, in every world, before the digest is decoded, and nothing
    is sent for it. *)
Lemma C9_short_line_never_gets_a_key :
  length (fst (hex.DecodeString "68656c6c6f")) < 32 /\
  strings.Split "68656c6c6f popToken" " " = ["68656c6c6f"; "popToken"] /\
  forall (W : World) (ctDB : gmap bytes bytes) (dbs : ProofDBs) (s : State),
    proofLine W ctDB dbs "68656c6c6f popToken" s =
      (inl (Panicked IndexOutOfRange), s).
Proof.
  split; [vm_compute; lia|]. split; [reflexivity|].
  intros W ctDB dbs s. apply proofLine_short. simpl. lia.
Qed.

(** C3, as the code has it.  A proof line with its three fields whose key
    finds no entry in the ciphertext index is not skipped: a request is
    built with an empty ciphertext and the line's two tokens, and it is
    sent; when the oracle answers it with an error, that error is the
    line's outcome and the loop goes on. *)
Theorem C3_unmatched_line_is_sent (W : World) (ctDB : gmap bytes bytes)
    (dbs : ProofDBs) (text l0 l1 l2 : string) (rest : list string) (s : State) :
  strings.Split text " " = l0 :: l1 :: l2 :: rest ->
  ctDB !! lookupKey l0 = None ->
  let req := {| pb.Ciphertext := []; pb.ProofOfPresence := l1;
                pb.ProofOfExtension := l2 |} in
  exists r s',
    proofLine W ctDB dbs text s = (r, s') /\
    decryptRequests (trace s') = decryptRequests (trace s) ++ [req] /\
    (forall e, DecryptRecord W (calls s) req = Err e ->
       r = inr (storeProofs dbs l0 l1 l2) /\
       outcomes (trace s') = outcomes (trace s) ++ [LogCouldNotDecrypt e]).
Proof.
  intros Hsplit Hnone req.
  assert (Hreq : requestOf ctDB l0 l1 l2 = req)
    by (unfold requestOf; rewrite Hnone; reflexivity).
  rewrite (proofLine_fields W ctDB _ _ _ _ _ _ _ Hsplit), Hreq.
  destruct (reportOutcome_cases (lookupKey l0) (DecryptRecord W (calls s) req)
              (advance s [CallDecryptRecord req] 1))
    as [(ev & Hev & Hr)|(rec & Hrec & _ & Hr)].
  - rewrite (bind_inr _ _ _ _ _ Hr). simpl.
    eexists _, _. split; [reflexivity|]. split.
    + unfold decryptRequests. simpl. rewrite !omap_app. simpl.
      destruct ev; try discriminate; simpl; rewrite app_nil_r; reflexivity.
    + intros e He. split; [reflexivity|].
      rewrite He, reportOutcome_err in Hr. inversion Hr as [Hadv].
      apply app_inv_head in Hadv. inversion Hadv; subst ev.
      unfold outcomes. simpl. rewrite !List.filter_app. simpl.
      rewrite app_nil_r. reflexivity.
  - rewrite (bind_inl _ _ _ _ _ Hr).
    eexists _, _. split; [reflexivity|]. split.
    + unfold decryptRequests. simpl. rewrite omap_app. reflexivity.
    + intros e He. congruence.
Qed.

Lemma C3_witness :
  let ctDB : gmap bytes bytes :=
    <[Fixture.digest (bytes_of_string "hello") := bytes_of_string "hello"]> ∅ in
  ctDB !! lookupKey "00ff" = None /\
  exists r s',
    proofLine Fixture.unmatched ctDB {| presenceDB := ∅; extensionDB := ∅ |}
      "00ff pop9 poe9" start = (r, s') /\
    decryptRequests (trace s') = [Fixture.request "" "pop9" "poe9"].
Proof.
  intros ctDB.
  assert (Hnone : ctDB !! lookupKey "00ff" = None) by (vm_compute; reflexivity).
  split; [exact Hnone|].
  destruct (C3_unmatched_line_is_sent Fixture.unmatched ctDB
              {| presenceDB := ∅; extensionDB := ∅ |}
              "00ff pop9 poe9" "00ff" "pop9" "poe9" [] start eq_refl Hnone)
    as (r & s' & Hrun & Hreqs & _).
  exists r, s'. split; [exact Hrun|exact Hreqs].
Defined.

(** C3 fails as stated: the ciphertext table holds ["hello"] and ["world"],
    the proof table has a line for the digest [00ff...] between theirs, and
    the program sends a request for it, with no ciphertext, and reports the
    oracle's answer to it. *)
Lemma C3_unmatched_line_gets_a_request :
  let tr := trace (snd (run Fixture.unmatched)) in
  decryptRequests tr =
    [Fixture.request "hello" "popToken" "poeToken";
     Fixture.request "" "pop9" "poe9";
     Fixture.request "world" "pop2" "poe2"] /\
  outcomes tr =
    [PrintDecryptRecord (Fixture.digest (bytes_of_string "hello")) "h";
     LogCouldNotDecrypt "rpc error: empty ciphertext";
     PrintDecryptRecord (Fixture.digest (bytes_of_string "world")) "w"].
Proof. split; vm_compute; reflexivity. Qed.




Lemma C6_witness :
  ciphertextField "C3D4,d29$bGQ=" = Some "d29$bGQ=" /\
  snd (base64_DecodeString Fixture.corrupt "d29$bGQ=") = Fixture.illegal /\
  exists x, loadRecords Fixture.corrupt start = (inl x, start).
Proof.
  split; [reflexivity|]. split; [reflexivity|].
  destruct (C6_load_is_all_or_nothing Fixture.corrupt
              {| lines := ["A1B2,aGVsbG8="; "C3D4,d29$bGQ="]; scanErr := None |}
              "C3D4,d29$bGQ=" "d29$bGQ=" "illegal base64 data" start
              eq_refl (or_intror (or_introl eq_refl)) eq_refl eq_refl)
    as (x & Hload & _).
  exists x. exact Hload.
Defined.

(** In the run of the program on the corrupt table, the second line stops
    it and no decrypt request is sent. *)
Example corrupt_run :
  fst (run Fixture.corrupt) = inl (Fatal "illegal base64 data") /\
  decryptRequests (trace (snd (run Fixture.corrupt))) = [].
Proof. split; vm_compute; reflexivity. Qed.

Lemma recordLine_withRecords (W : World) (file : Scanned)
    (ctDB : gmap bytes bytes) (text : string) (s : State) :
  recordLine (withRecords W file) ctDB text s = recordLine W ctDB text s.
Proof. reflexivity. Qed.

Lemma records_loop_withRecords (W : World) (file : Scanned) (xs : list string)
    (ctDB : gmap bytes bytes) (s : State) :
  forEach (recordLine (withRecords W file)) xs ctDB s = forEach (recordLine W) xs ctDB s.
Proof.
  revert ctDB s. induction xs as [|x xs IH]; intros ctDB s; simpl; [reflexivity|].
  unfold bind. rewrite recordLine_withRecords.
  destruct (recordLine W ctDB x s) as [[e|ctDB1] s1]; [reflexivity|]. apply IH.
Qed.

(** C8. The verification step hashes the root hash followed by the
    commitment's nonce and hands that digest, the signature and the
    verification key to the PKCS#1 v1.5 check, whose answer alone decides
    the verdict.  Every entry of the loaded index is stored under the
    SHA-256 digest of its own bytes, which are the decoding of some line's
    second field, and every line's ciphertext is found under its digest; the
    other fields of the lines do not reach the index: a table with the same
    second fields loads to the same index. *)
Theorem C8_digests_are_computed_locally (W : World) (k : rsa.PublicKey)
    (rth : pb.RootTreeHash) (file : Scanned) (ctDB : gmap bytes bytes) (s s' : State) :
  open_records W = Ok file ->
  loadRecords W s = (inr ctDB, s') ->
  verifyRTH W (Some k) rth s =
    (inr tt,
     advance s
       match rsa_VerifyPKCS1v15 W k crypto.SHA256
               (sha256_Sum256 W (pb.Rth rth ++ pb.Nonce rth)) (pb.Sig rth) with
       | Some e => [LogVerifyFailed e; LogVerified (pb.Rth rth)]
       | None => [LogVerified (pb.Rth rth)]
       end 0) /\
  (forall key ct, ctDB !! key = Some ct ->
     key = sha256_Sum256 W ct /\
     exists text field, In text (lines file) /\ ciphertextField text = Some field /\
       base64_DecodeString W field = (ct, None)) /\
  (forall text field ct, In text (lines file) -> ciphertextField text = Some field ->
     base64_DecodeString W field = (ct, None) ->
     is_Some (ctDB !! sha256_Sum256 W ct)) /\
  (forall file', map ciphertextField (lines file') = map ciphertextField (lines file) ->
     scanErr file' = scanErr file ->
     loadRecords (withRecords W file') s = (inr ctDB, s')).
Proof.
  intros Hopen Hload. split; [apply verifyRTH_key|].
  rewrite (loadRecords_open W file s Hopen) in Hload. unfold bind in Hload.
  destruct (forEach (recordLine W) (lines file) ∅ s) as [[x|m] s1] eqn:Hloop;
    [discriminate|].
  destruct (scanErr file) as [e|] eqn:Hscan; [discriminate|].
  inversion Hload; subst m s1. clear Hload.
  split; [|split].
  - intros key ct Hk.
    destruct (records_loop_keys W _ _ _ _ _ Hloop key ct Hk) as [Hempty|H];
      [rewrite lookup_empty in Hempty; discriminate|exact H].
  - intros text field ct Hin Hf Hd.
    eapply records_loop_holds; eauto.
  - intros file' Hmap Hscan'.
    rewrite (loadRecords_open (withRecords W file') file' s eq_refl).
    unfold bind. rewrite records_loop_withRecords.
    rewrite (records_loop_labels W _ _ _ _ Hmap), Hloop, Hscan'.
    reflexivity.
Qed.

Lemma C8_witness :
  let ctDB : gmap bytes bytes :=
    <[Fixture.digest (bytes_of_string "world") := bytes_of_string "world"]>
      (<[Fixture.digest (bytes_of_string "hello") := bytes_of_string "hello"]> ∅) in
  loadRecords Fixture.honest start = (inr ctDB, start) /\
  forall key ct, ctDB !! key = Some ct -> key = Fixture.digest ct.
Proof.
  intros ctDB.
  assert (Hload : loadRecords Fixture.honest start = (inr ctDB, start))
    by (vm_compute; reflexivity).
  split; [exact Hload|].
  intros key ct Hk.
  destruct (C8_digests_are_computed_locally Fixture.honest
              {| rsa.N := 2 ^ 2047 + 1; rsa.E := 65537 |}
              (Fixture.commitment Fixture.rootHash Fixture.sentNonce)
              {| lines := Fixture.records; scanErr := None |}
              ctDB start start eq_refl Hload) as (_ & Hkeys & _).
  exact (proj1 (Hkeys key ct Hk)).
Defined.

(** ** The run as a whole *)

(** When the connection, the two calls, the import and the sample
    encryptions succeed, the program enters the session with the commitment
    the server sent and with the key parsed from the quote's verification
    key. *)
Lemma main_reaches_session (W : World) (rth : pb.RootTreeHash) (pk : pb.Quote)
    (be bv : pem.Block) (encKey : rsa.PublicKey) (verPub : x509.PublicKey)
    (ct1 ct2 : bytes) :
  Dial W = None ->
  GetRootTreeHash W (bytes_of_string "aaaaaaaaa") = Ok rth ->
  31 <= length (pb.Sig rth) ->
  GetPublicKey W (bytes_of_string "a long and random byte array") = Ok pk ->
  pem_Decode W (pb.RSA_EncryptionKey pk) = Some be ->
  pem_Decode W (pb.RSA_VerificationKey pk) = Some bv ->
  x509_ParsePKIXPublicKey W (pem.Bytes be) = Ok (x509.RSA encKey) ->
  x509_ParsePKIXPublicKey W (pem.Bytes bv) = Ok verPub ->
  rsa_EncryptOAEP W encKey samplePlaintext label = Ok ct1 ->
  rsa_EncryptPKCS1v15 W encKey samplePKCS1v15PT = Ok ct2 ->
  run W =
  session W (assertRSA verPub) rth
    (advance start
       [CallGetRootTreeHash (bytes_of_string "aaaaaaaaa");
        LogRTH (pb.Rth rth) (pb.Nonce rth) (take 31 (pb.Sig rth));
        CallGetPublicKey (bytes_of_string "a long and random byte array");
        LogQuote pk;
        LogEncryptionTest samplePlaintext label ct1] 0).
Proof.
  intros Hdial Hrth Hsig Hpk Hbe Hbv He Hv Hoaep Hpkcs.
  assert (H1 : dial W start = (inr tt, start))
    by (unfold dial; rewrite Hdial; reflexivity).
  assert (H2 : getRootTreeHash W start =
            (inr rth, advance start
               [CallGetRootTreeHash (bytes_of_string "aaaaaaaaa");
                LogRTH (pb.Rth rth) (pb.Nonce rth) (take 31 (pb.Sig rth))] 0)).
  { unfold getRootTreeHash. rewrite Hrth. unfold sliceTo.
    destruct (Nat.leb_spec 31 (length (pb.Sig rth) + length (sigSpare W)))
      as [_|Hlt]; [|lia].
    rewrite take_app_le by lia. reflexivity. }
  set (s2 := advance start _ 0) in H2.
  assert (H3 : getPublicKey W s2 =
            (inr pk, advance s2
               [CallGetPublicKey (bytes_of_string "a long and random byte array");
                LogQuote pk] 0)).
  { unfold getPublicKey. rewrite Hpk. reflexivity. }
  set (s3 := advance s2 _ 0) in H3.
  pose proof (importKeys_parsed W pk be bv _ _ s3 Hbe Hbv He Hv) as H4.
  assert (H5 : encryptionTest W (assertRSA (x509.RSA encKey)) s3 =
            (inr (ct1, ct2), advance s3 [LogEncryptionTest samplePlaintext label ct1] 0)).
  { unfold encryptionTest. simpl. rewrite bind_ret_l, Hoaep, Hpkcs. reflexivity. }
  unfold run, main.
  rewrite (bind_inr _ _ _ _ _ H1), (bind_inr _ _ _ _ _ H2), (bind_inr _ _ _ _ _ H3).
  rewrite (bind_inr _ _ _ _ _ H4), (bind_inr _ _ _ _ _ H5).
  unfold specTest. simpl. rewrite bind_ret_l.
  reflexivity.
Qed.

(** In every world where the program reaches the verification step and the
    signature check returns an error, the run goes on to load the tables and
    to process the proof lines, as it does after a check that passed: the
    log alone differs. *)
Lemma failed_verification_does_not_stop_the_run (W : World) (rth : pb.RootTreeHash)
    (pk : pb.Quote) (be bv : pem.Block) (encKey verKey : rsa.PublicKey)
    (ct1 ct2 : bytes) (e : error) :
  Dial W = None ->
  GetRootTreeHash W (bytes_of_string "aaaaaaaaa") = Ok rth ->
  31 <= length (pb.Sig rth) ->
  GetPublicKey W (bytes_of_string "a long and random byte array") = Ok pk ->
  pem_Decode W (pb.RSA_EncryptionKey pk) = Some be ->
  pem_Decode W (pb.RSA_VerificationKey pk) = Some bv ->
  x509_ParsePKIXPublicKey W (pem.Bytes be) = Ok (x509.RSA encKey) ->
  x509_ParsePKIXPublicKey W (pem.Bytes bv) = Ok (x509.RSA verKey) ->
  rsa_EncryptOAEP W encKey samplePlaintext label = Ok ct1 ->
  rsa_EncryptPKCS1v15 W encKey samplePKCS1v15PT = Ok ct2 ->
  rsa_VerifyPKCS1v15 W verKey crypto.SHA256
    (sha256_Sum256 W (pb.Rth rth ++ pb.Nonce rth)) (pb.Sig rth) = Some e ->
  run W =
  bind (loadRecords W)
       (fun ctDB => bind (processProofs W ctDB) (fun _ => ret tt))
       (advance start
          [CallGetRootTreeHash (bytes_of_string "aaaaaaaaa");
           LogRTH (pb.Rth rth) (pb.Nonce rth) (take 31 (pb.Sig rth));
           CallGetPublicKey (bytes_of_string "a long and random byte array");
           LogQuote pk;
           LogEncryptionTest samplePlaintext label ct1;
           LogVerifyFailed e;
           LogVerified (pb.Rth rth)] 0).
Proof.
  intros Hdial Hrth Hsig Hpk Hbe Hbv He Hv Hoaep Hpkcs Hbad.
  rewrite (main_reaches_session W rth pk be bv encKey _ ct1 ct2
             Hdial Hrth Hsig Hpk Hbe Hbv He Hv Hoaep Hpkcs).
  simpl assertRSA. rewrite session_after_verification.
  unfold verdict. rewrite Hbad, advance_advance. reflexivity.
Qed.

(** ** Further properties of the lookup key (lines 167-170) *)

(** X1. The lookup key of any digest field is the first 32 bytes of what
    the field decodes to followed by zeros: a field that decodes to 32 bytes
    or more is cut to its first 32, without an error. *)
Theorem X1_lookupKey_truncates (l0 : string) :
  lookupKey l0 = take 32 (fst (hex.DecodeString l0) ++ replicate 32 x00) /\
  (32 <= length (fst (hex.DecodeString l0)) ->
   lookupKey l0 = take 32 (fst (hex.DecodeString l0))).
Proof.
  split; [apply lookupKey_take|].
  intros Hlen. rewrite lookupKey_take. apply take_app_le. lia.
Qed.

Lemma X1_witness :
  lookupKey ("68656c6c6f" +:+ hex.EncodeToString (replicate 40 x01)) =
  bytes_of_string "hello" ++ replicate 27 x01.
Proof.
  rewrite (proj2 (X1_lookupKey_truncates _)); [reflexivity|].
  vm_compute. lia.
Defined.

Lemma hex_digit_round_trip (v : byte) :
  hex.fromHexChar (hex.digit (N.shiftr (Byte.to_N v) 4)) = Some (N.shiftr (Byte.to_N v) 4) /\
  hex.fromHexChar (hex.digit (N.land (Byte.to_N v) 15)) = Some (N.land (Byte.to_N v) 15) /\
  hex.mkByte (N.shiftr (Byte.to_N v) 4) (N.land (Byte.to_N v) 15) = v.
Proof. destruct v; vm_compute; repeat split. Qed.

(** Decoding undoes encoding. *)
Lemma hex_round_trip (b : bytes) :
  hex.DecodeString (hex.EncodeToString b) = (b, None).
Proof.
  unfold hex.DecodeString. induction b as [|v b IH]; [reflexivity|].
  destruct (hex_digit_round_trip v) as (Hhi & Hlo & Hv).
  cbn [hex.EncodeToString hex.Decode].
  rewrite Hhi, Hlo, IH, Hv. reflexivity.
Qed.

(** X2. A digest field that is the hexadecimal encoding of a 32-byte
    digest, as the program prints digests, decodes without error and looks
    up exactly that digest. *)
Theorem X2_lookupKey_of_encoded_digest (d : bytes) :
  length d = 32 ->
  hex.DecodeString (hex.EncodeToString d) = (d, None) /\
  lookupKey (hex.EncodeToString d) = d.
Proof.
  intros Hlen. split; [apply hex_round_trip|].
  rewrite lookupKey_take, hex_round_trip. simpl.
  rewrite take_app_le by lia. apply take_ge. lia.
Qed.

Lemma X2_witness :
  lookupKey (hex.EncodeToString (Fixture.digest (bytes_of_string "hello"))) =
  Fixture.digest (bytes_of_string "hello").
Proof. apply (X2_lookupKey_of_encoded_digest _ (Fixture.digest_Size _)). Defined.

(** ** Fields of a line (lines 133 and 162) *)

Lemma splitFrom_length (sep : ascii) (s cur : string) :
  length (strings.splitFrom sep cur s) = S (countSep sep s).
Proof.
  revert cur. induction s as [|c s IH]; intros cur; simpl; [reflexivity|].
  destruct (Ascii.eqb c sep); simpl; rewrite IH; reflexivity.
Qed.

Lemma Split_length (s : string) (sep : ascii) :
  length (strings.Split s sep) = S (countSep sep s).
Proof. apply splitFrom_length. Qed.

Lemma threeFields_length (text : string) :
  threeFields text <-> 3 <= length (strings.Split text " ").
Proof.
  unfold threeFields. split.
  - intros (l0 & l1 & l2 & rest & ->). simpl. lia.
  - intros Hlen.
    destruct (strings.Split text " ") as [|l0 [|l1 [|l2 rest]]]; simpl in Hlen;
      try lia.
    eauto.
Qed.

(** X3. [strings.Split] yields one field more than the line has
    separators: a proof line has its three fields exactly when it holds two
    spaces or more, and a line of the ciphertext table has the field that is
    read exactly when it holds a comma. *)
Theorem X3_fields_count_separators (text : string) :
  length (strings.Split text " ") = S (countSep " " text) /\
  (threeFields text <-> 2 <= countSep " " text) /\
  (is_Some (ciphertextField text) <-> 1 <= countSep "," text).
Proof.
  split; [apply Split_length|]. split.
  - rewrite threeFields_length, Split_length. lia.
  - unfold ciphertextField. rewrite lookup_lt_is_Some, Split_length. lia.
Qed.

(** ** Lines that stop the program (lines 135, 164-165 and 180) *)

Lemma proofs_loop_step (W : World) (ctDB : gmap bytes bytes)
    (pre post : list string) (text : string) (dbs dbs1 : ProofDBs) (s s1 : State) :
  forEach (proofLine W ctDB) pre dbs s = (inr dbs1, s1) ->
  forEach (proofLine W ctDB) (pre ++ text :: post) dbs s =
  bind (proofLine W ctDB dbs1 text) (forEach (proofLine W ctDB) post) s1.
Proof.
  intros Hpre. rewrite forEach_app, (bind_inr _ _ _ _ _ Hpre). reflexivity.
Qed.

(** X4. A proof line with fewer than two spaces, a blank line among them,
    stops the program with an index panic once the lines before it have been
    processed: nothing is sent for it, and the lines after it are never
    read. *)
Theorem X4_short_proof_line_panics (W : World) (ctDB : gmap bytes bytes)
    (pre post : list string) (text : string) (dbs dbs1 : ProofDBs) (s s1 : State) :
  forEach (proofLine W ctDB) pre dbs s = (inr dbs1, s1) ->
  countSep " " text < 2 ->
  forEach (proofLine W ctDB) (pre ++ text :: post) dbs s =
    (inl (Panicked IndexOutOfRange), s1).
Proof.
  intros Hpre Hsep. rewrite (proofs_loop_step W ctDB pre post text dbs dbs1 s s1 Hpre).
  apply bind_inl, proofLine_short. rewrite Split_length. lia.
Qed.

Lemma X4_witness :
  forEach (proofLine Fixture.honest ∅) ([] ++ "" :: Fixture.proofs)
    {| presenceDB := ∅; extensionDB := ∅ |} start =
  (inl (Panicked IndexOutOfRange), start).
Proof.
  apply (X4_short_proof_line_panics Fixture.honest ∅ [] Fixture.proofs ""
           {| presenceDB := ∅; extensionDB := ∅ |} _ start start eq_refl).
  simpl. lia.
Defined.

Lemma records_loop_step (W : World) (pre post : list string) (text : string)
    (ctDB ctDB1 : gmap bytes bytes) (s s1 : State) :
  forEach (recordLine W) pre ctDB s = (inr ctDB1, s1) ->
  forEach (recordLine W) (pre ++ text :: post) ctDB s =
  bind (recordLine W ctDB1 text) (forEach (recordLine W) post) s1.
Proof.
  intros Hpre. rewrite forEach_app, (bind_inr _ _ _ _ _ Hpre). reflexivity.
Qed.

(** X5. A line of the ciphertext table without a comma, a blank line among
    them, stops the load with an index panic once the lines before it have
    been decoded; the lines after it are never read. *)
Theorem X5_record_line_without_comma_panics (W : World) (pre post : list string)
    (text : string) (ctDB ctDB1 : gmap bytes bytes) (s s1 : State) :
  forEach (recordLine W) pre ctDB s = (inr ctDB1, s1) ->
  countSep "," text = 0 ->
  forEach (recordLine W) (pre ++ text :: post) ctDB s =
    (inl (Panicked IndexOutOfRange), s).
Proof.
  intros Hpre Hsep.
  rewrite (records_loop_step W pre post text ctDB ctDB1 s s1 Hpre).
  rewrite (records_loop_silent W _ _ _ _ _ Hpre).
  apply bind_inl. rewrite recordLine_spec.
  destruct (ciphertextField text) as [field|] eqn:Hf; [|reflexivity].
  exfalso.
  assert (Hsome : is_Some (ciphertextField text)) by (rewrite Hf; eauto).
  unfold ciphertextField in Hsome.
  rewrite lookup_lt_is_Some, Split_length in Hsome. lia.
Qed.

Lemma X5_witness :
  forEach (recordLine Fixture.honest) (["A1B2,aGVsbG8="] ++ "C3D4 d29ybGQ=" :: []) ∅ start =
  (inl (Panicked IndexOutOfRange), start).
Proof.
  apply (X5_record_line_without_comma_panics Fixture.honest ["A1B2,aGVsbG8="] []
           "C3D4 d29ybGQ=" ∅
           (<[Fixture.digest (bytes_of_string "hello") := bytes_of_string "hello"]> ∅)
           start start); reflexivity.
Defined.

(** X6. An answer of the oracle that is not an error but carries an empty
    plaintext stops the program: the request has been sent, reading the
    first byte of the plaintext panics, no outcome is reported for the line
    and the lines after it are never processed. *)
Theorem X6_empty_plaintext_panics (W : World) (ctDB : gmap bytes bytes)
    (pre post : list string) (text l0 l1 l2 : string) (rest : list string)
    (dbs dbs1 : ProofDBs) (s s1 : State) (rec : pb.Record_) :
  forEach (proofLine W ctDB) pre dbs s = (inr dbs1, s1) ->
  strings.Split text " " = l0 :: l1 :: l2 :: rest ->
  DecryptRecord W (calls s1) (requestOf ctDB l0 l1 l2) = Ok rec ->
  pb.Plaintext rec = [] ->
  forEach (proofLine W ctDB) (pre ++ text :: post) dbs s =
    (inl (Panicked IndexOutOfRange),
     advance s1 [CallDecryptRecord (requestOf ctDB l0 l1 l2)] 1).
Proof.
  intros Hpre Hsplit Hok Hempty.
  rewrite (proofs_loop_step W ctDB pre post text dbs dbs1 s s1 Hpre).
  apply bind_inl. rewrite (proofLine_fields W ctDB _ _ _ _ _ _ _ Hsplit), Hok.
  apply bind_inl. rewrite reportOutcome_ok, Hempty. reflexivity.
Qed.

Lemma X6_witness :
  let W := Fixture.world (Fixture.commitment Fixture.rootHash Fixture.sentNonce)
             (Fixture.quote "R2048" "R2048")
             (fun _ _ => Ok {| pb.Plaintext := [] |}) Fixture.records Fixture.proofs in
  fst (forEach (proofLine W ∅) ([] ++ "68656c6c6f popToken poeToken" :: ["776f726c64 pop2 poe2"])
         {| presenceDB := ∅; extensionDB := ∅ |} start) =
  inl (Panicked IndexOutOfRange).
Proof.
  intros W.
  rewrite (X6_empty_plaintext_panics W ∅ [] ["776f726c64 pop2 poe2"]
             "68656c6c6f popToken poeToken" "68656c6c6f" "popToken" "poeToken" []
             {| presenceDB := ∅; extensionDB := ∅ |} _ start start
             {| pb.Plaintext := [] |} eq_refl eq_refl eq_refl eq_refl).
  reflexivity.
Defined.

(** ** The requests of the proof loop (lines 161-188) *)

Lemma requestOfLine_fields (ctDB : gmap bytes bytes) text l0 l1 l2 rest :
  strings.Split text " " = l0 :: l1 :: l2 :: rest ->
  requestOfLine ctDB text = Some (requestOf ctDB l0 l1 l2).
Proof. intros H. unfold requestOfLine. rewrite H. reflexivity. Qed.

Lemma decryptRequests_app (tr tr' : list Event) :
  decryptRequests (tr ++ tr') = decryptRequests tr ++ decryptRequests tr'.
Proof. apply omap_app. Qed.

Lemma decryptRequests_outcome (ev : Event) :
  isOutcome ev = true -> decryptRequests [ev] = [].
Proof. destruct ev; simpl; intros H; try discriminate; reflexivity. Qed.

(** The requests of a loop, however it ends: those of the first [n] lines,
    in the order of the file. *)
Lemma proofs_loop_requests (W : World) (ctDB : gmap bytes bytes)
    (xs : list string) (dbs : ProofDBs) (s : State) r s' :
  forEach (proofLine W ctDB) xs dbs s = (r, s') ->
  exists n reqs,
    n <= length xs /\
    Forall2 (fun text req => requestOfLine ctDB text = Some req) (take n xs) reqs /\
    decryptRequests (trace s') = decryptRequests (trace s) ++ reqs /\
    calls s' = calls s + n /\
    (forall dbs', r = inr dbs' -> n = length xs).
Proof.
  revert dbs s. induction xs as [|text xs IH]; intros dbs s H; simpl in H.
  - inversion H; subst. exists 0, []. simpl.
    rewrite app_nil_r, Nat.add_0_r.
    split; [lia|]. split; [constructor|]. auto.
  - unfold bind in H.
    destruct (strings.Split text " ") as [|l0 [|l1 [|l2 rest]]] eqn:Hsplit;
      try (rewrite proofLine_short in H by (rewrite Hsplit; simpl; lia);
           inversion H; subst; exists 0, []; simpl;
           rewrite app_nil_r, Nat.add_0_r;
           split; [lia|]; split; [constructor|];
           split; [reflexivity|]; split; [reflexivity|discriminate]).
    rewrite (proofLine_fields W ctDB _ _ _ _ _ _ _ Hsplit) in H.
    set (req := requestOf ctDB l0 l1 l2) in *.
    destruct (reportOutcome_cases (lookupKey l0) (DecryptRecord W (calls s) req)
                (advance s [CallDecryptRecord req] 1))
      as [(ev & Hev & Hr)|(rec & _ & _ & Hr)].
    + rewrite (bind_inr _ _ _ _ _ Hr) in H. simpl in H.
      destruct (IH _ _ H) as (n & reqs & Hn & Hreqs & Htr & Hcalls & Hall).
      exists (S n), (req :: reqs). simpl. split; [lia|]. split.
      { constructor; [apply (requestOfLine_fields _ _ _ _ _ _ Hsplit)|exact Hreqs]. }
      split.
      { rewrite Htr. unfold advance. cbn [trace].
        rewrite !decryptRequests_app, (decryptRequests_outcome ev Hev), app_nil_r.
        rewrite <- app_assoc. reflexivity. }
      split; [rewrite Hcalls; simpl; lia|].
      intros dbs' Hr'. rewrite (Hall dbs' Hr'). reflexivity.
    + rewrite (bind_inl _ _ _ _ _ Hr) in H. inversion H; subst.
      exists 1, [req]. simpl. split; [lia|]. split.
      { rewrite take_0. constructor;
          [apply (requestOfLine_fields _ _ _ _ _ _ Hsplit)|constructor]. }
      split; [rewrite decryptRequests_app; reflexivity|].
      split; [reflexivity|discriminate].
Qed.

(** X7. The proof loop sends its requests in the order of the file, one for
    each line it reaches and none besides: however the loop ends, the
    requests it has sent are those of the first [n] lines, each built from
    its own line, and [n] is the number of lines when the loop returns. *)
Theorem X7_requests_follow_the_file (W : World) (ctDB : gmap bytes bytes)
    (xs : list string) (dbs : ProofDBs) (s : State) :
  exists n reqs,
    n <= length xs /\
    Forall2 (fun text req => requestOfLine ctDB text = Some req) (take n xs) reqs /\
    decryptRequests (trace (snd (forEach (proofLine W ctDB) xs dbs s))) =
      decryptRequests (trace s) ++ reqs /\
    calls (snd (forEach (proofLine W ctDB) xs dbs s)) = calls s + n /\
    (forall dbs', fst (forEach (proofLine W ctDB) xs dbs s) = inr dbs' ->
       n = length xs).
Proof.
  destruct (forEach (proofLine W ctDB) xs dbs s) as [r s'] eqn:Hrun.
  apply (proofs_loop_requests W ctDB xs dbs s r s' Hrun).
Qed.

(** X8. The proof table is processed while it is read: when the scanner
    ends with an error after well-formed lines, the request of every line
    has been sent and its outcome reported before the error stops the
    program. *)
Theorem X8_scan_error_comes_after_the_requests (W : World) (ctDB : gmap bytes bytes)
    (proofFile : Scanned) (e : error) (s : State) :
  open_records_proofs W = Ok proofFile ->
  scanErr proofFile = Some e ->
  Forall threeFields (lines proofFile) ->
  answersNonEmpty W ->
  exists s',
    processProofs W ctDB s = (inl (Fatal e), s') /\
    calls s' = calls s + length (lines proofFile) /\
    length (outcomes (trace s')) =
      length (outcomes (trace s)) + length (lines proofFile).
Proof.
  intros Hopen Hscan Hlines Hne.
  destruct (proofs_loop_completes W ctDB (lines proofFile)
              {| presenceDB := ∅; extensionDB := ∅ |} s Hlines Hne)
    as (dbs' & s' & Hrun).
  exists s'. unfold processProofs. rewrite Hopen, (bind_inr _ _ _ _ _ Hrun), Hscan.
  split; [reflexivity|].
  destruct (proofs_loop_returns W ctDB _ _ _ _ _ Hrun) as [Hout Hcalls].
  split; [exact Hcalls|exact Hout].
Qed.

Lemma X8_witness :
  let W := withProofs Fixture.honest
             {| lines := Fixture.proofs; scanErr := Some "read error" |} in
  let ctDB : gmap bytes bytes :=
    <[Fixture.digest (bytes_of_string "world") := bytes_of_string "world"]>
      (<[Fixture.digest (bytes_of_string "hello") := bytes_of_string "hello"]> ∅) in
  exists s', processProofs W ctDB start = (inl (Fatal "read error"), s') /\
             calls s' = 2.
Proof.
  intros W ctDB.
  assert (Hne : answersNonEmpty W).
  { intros n req rec. simpl. unfold Fixture.echo.
    destruct (pb.Ciphertext req) eqn:Hc; [discriminate|].
    intros H. inversion H. simpl. discriminate. }
  assert (Hlines : Forall threeFields Fixture.proofs).
  { repeat constructor; unfold threeFields; vm_compute; eauto. }
  destruct (X8_scan_error_comes_after_the_requests W ctDB
              {| lines := Fixture.proofs; scanErr := Some "read error" |}
              "read error" start eq_refl eq_refl Hlines Hne)
    as (s' & Hrun & Hcalls & _).
  exists s'. split; [exact Hrun|exact Hcalls].
Defined.

(** ** The loaded index (lines 122-146) *)

Section LoadedIndex.

Variable W : World.

Lemma recordLine_ciphertext (ctDB : gmap bytes bytes) (text : string) (s : State) :
  recordLine W ctDB text s =
  match ciphertextOf W text with
  | Some ct => (inr (<[sha256_Sum256 W ct := ct]> ctDB), s)
  | None =>
      match ciphertextField text with
      | None => (inl (Panicked IndexOutOfRange), s)
      | Some field =>
          match snd (base64_DecodeString W field) with
          | Some e => (inl (Fatal e), s)
          | None => (inl (Panicked IndexOutOfRange), s)
          end
      end
  end.
Proof.
  rewrite recordLine_spec. unfold ciphertextOf.
  destruct (ciphertextField text) as [field|]; [|reflexivity].
  destruct (base64_DecodeString W field) as [ct [e|]]; reflexivity.
Qed.

(** When every line gives a ciphertext, the loop stores them all. *)
Lemma records_loop_stores (xs : list string) (ctDB : gmap bytes bytes) (s : State) :
  Forall (fun text => is_Some (ciphertextOf W text)) xs ->
  forEach (recordLine W) xs ctDB s =
    (inr (storeAll W ctDB (omap (ciphertextOf W) xs)), s).
Proof.
  intros Hxs. revert ctDB.
  induction Hxs as [|text xs [ct Hct] _ IH]; intros ctDB; [reflexivity|].
  simpl. unfold bind. rewrite recordLine_ciphertext, Hct. simpl. apply IH.
Qed.

(** A loop that returns an index was given a ciphertext by every line. *)
Lemma records_loop_decoded (xs : list string) (ctDB ctDB' : gmap bytes bytes) (s s' : State) :
  forEach (recordLine W) xs ctDB s = (inr ctDB', s') ->
  Forall (fun text => is_Some (ciphertextOf W text)) xs.
Proof.
  revert ctDB. induction xs as [|text xs IH]; intros ctDB H; [constructor|].
  simpl in H. unfold bind in H. rewrite recordLine_ciphertext in H.
  destruct (ciphertextOf W text) as [ct|] eqn:Hct.
  - constructor; [eauto|]. apply (IH _ H).
  - destruct (ciphertextField text) as [field|]; [|discriminate].
    destruct (snd (base64_DecodeString W field)); discriminate.
Qed.

Lemma storeAll_lookup (cts : list bytes) (ctDB : gmap bytes bytes) (key : bytes) :
  storeAll W ctDB cts !! key = latest W key cts (ctDB !! key).
Proof.
  revert ctDB. induction cts as [|ct cts IH]; intros ctDB; [reflexivity|].
  unfold storeAll in *. simpl. rewrite IH, lookup_insert. reflexivity.
Qed.

Lemma latest_sound (key : bytes) (cts : list bytes) (acc : option bytes) (ct : bytes) :
  latest W key cts acc = Some ct ->
  (In ct cts /\ sha256_Sum256 W ct = key) \/ acc = Some ct.
Proof.
  revert acc. induction cts as [|c cts IH]; intros acc H; simpl in H; [auto|].
  destruct (IH _ H) as [[Hin Hk]|Hacc].
  - left. simpl. auto.
  - destruct (decide (sha256_Sum256 W c = key)) as [Hk|_].
    + inversion Hacc; subst. left. simpl. auto.
    + right. exact Hacc.
Qed.

Lemma latest_some (key : bytes) (cts : list bytes) (acc : option bytes) :
  is_Some acc -> is_Some (latest W key cts acc).
Proof.
  revert acc. induction cts as [|c cts IH]; intros acc H; simpl; [exact H|].
  apply IH. destruct (decide (sha256_Sum256 W c = key)); eauto.
Qed.

Lemma latest_complete (key : bytes) (cts : list bytes) (acc : option bytes) (ct : bytes) :
  In ct cts -> sha256_Sum256 W ct = key -> is_Some (latest W key cts acc).
Proof.
  revert acc. induction cts as [|c cts IH]; intros acc Hin Hk; [destruct Hin|].
  simpl. destruct Hin as [->|Hin].
  - apply latest_some. rewrite decide_True by exact Hk. eauto.
  - apply (IH _ Hin Hk).
Qed.

(** In a table without collisions the index holds, under each digest, the
    one ciphertext that has it. *)
Lemma latest_collisionFree (cts : list bytes) (key ct : bytes) :
  collisionFree W cts ->
  (latest W key cts None = Some ct <-> In ct cts /\ sha256_Sum256 W ct = key).
Proof.
  intros Hfree. split.
  - intros H. destruct (latest_sound _ _ _ _ H) as [Hin|Hacc]; [exact Hin|discriminate].
  - intros [Hin Hk].
    destruct (latest_complete key cts None ct Hin Hk) as [ct' Hct'].
    destruct (latest_sound _ _ _ _ Hct') as [[Hin' Hk']|Hacc]; [|discriminate].
    rewrite Hct'. f_equal. apply Hfree; [exact Hin'|exact Hin|congruence].
Qed.

Lemma loadRecords_returns (file : Scanned) (ctDB : gmap bytes bytes) (s s' : State) :
  open_records W = Ok file ->
  loadRecords W s = (inr ctDB, s') ->
  Forall (fun text => is_Some (ciphertextOf W text)) (lines file) /\
  scanErr file = None /\
  ctDB = storeAll W ∅ (omap (ciphertextOf W) (lines file)) /\
  s' = s.
Proof.
  intros Hopen Hload. rewrite (loadRecords_open W file s Hopen) in Hload.
  unfold bind in Hload.
  destruct (forEach (recordLine W) (lines file) ∅ s) as [[x|m] s1] eqn:Hloop;
    [discriminate|].
  pose proof (records_loop_decoded _ _ _ _ _ Hloop) as Hall.
  rewrite (records_loop_stores _ ∅ s Hall) in Hloop.
  destruct (scanErr file) as [e|]; [discriminate|].
  inversion Hloop; subst. inversion Hload; subst. auto.
Qed.

End LoadedIndex.

(** X9. The load hands back an index exactly when every line of the table
    has a second field that decodes and the scanner ends without error; a
    scanner error after lines that all decode is fatal like a line that
    does not. *)
Theorem X9_load_succeeds_iff (W : World) (file : Scanned) (s : State) :
  open_records W = Ok file ->
  ((exists ctDB, loadRecords W s = (inr ctDB, s)) <->
   Forall (fun text => is_Some (ciphertextOf W text)) (lines file) /\
   scanErr file = None) /\
  (forall e, Forall (fun text => is_Some (ciphertextOf W text)) (lines file) ->
     scanErr file = Some e -> loadRecords W s = (inl (Fatal e), s)).
Proof.
  intros Hopen. split; [split|].
  - intros [ctDB Hload].
    destruct (loadRecords_returns W file ctDB s s Hopen Hload) as (Hall & Hscan & _).
    auto.
  - intros [Hall Hscan]. rewrite (loadRecords_open W file s Hopen).
    unfold bind. rewrite (records_loop_stores W _ ∅ s Hall), Hscan. eauto.
  - intros e Hall Hscan. rewrite (loadRecords_open W file s Hopen).
    unfold bind. rewrite (records_loop_stores W _ ∅ s Hall), Hscan. reflexivity.
Qed.

Lemma X9_witness :
  exists ctDB, loadRecords Fixture.honest start = (inr ctDB, start).
Proof.
  apply (proj1 (X9_load_succeeds_iff Fixture.honest
                  {| lines := Fixture.records; scanErr := None |} start eq_refl)).
  split; [|reflexivity].
  repeat constructor; vm_compute; eauto.
Defined.

(** X10. Last write wins: the loaded index maps each digest to the
    ciphertext of the last line of the table that has this digest, and holds
    nothing under a digest that no line has. *)
Theorem X10_last_line_wins (W : World) (file : Scanned)
    (ctDB : gmap bytes bytes) (s s' : State) (key : bytes) :
  open_records W = Ok file ->
  loadRecords W s = (inr ctDB, s') ->
  ctDB !! key = latest W key (omap (ciphertextOf W) (lines file)) None.
Proof.
  intros Hopen Hload.
  destruct (loadRecords_returns W file ctDB s s' Hopen Hload) as (_ & _ & -> & _).
  rewrite storeAll_lookup, lookup_empty. reflexivity.
Qed.

Lemma honest_load :
  loadRecords Fixture.honest start =
  (inr (storeAll Fixture.honest ∅ [bytes_of_string "hello"; bytes_of_string "world"]),
   start).
Proof.
  rewrite (loadRecords_open Fixture.honest
             {| lines := Fixture.records; scanErr := None |} start eq_refl).
  unfold bind. rewrite records_loop_stores; [reflexivity|].
  repeat constructor; vm_compute; eauto.
Qed.

Lemma X10_witness :
  storeAll Fixture.honest ∅ [bytes_of_string "hello"; bytes_of_string "world"]
    !! Fixture.digest (bytes_of_string "world") =
  latest Fixture.honest (Fixture.digest (bytes_of_string "world"))
    (omap (ciphertextOf Fixture.honest)
       (lines {| lines := Fixture.records; scanErr := None |})) None.
Proof.
  exact (X10_last_line_wins Fixture.honest
           {| lines := Fixture.records; scanErr := None |} _ start start
           (Fixture.digest (bytes_of_string "world")) eq_refl honest_load).
Defined.

Lemma ciphertextOf_withRecords (W : World) (file : Scanned) (text : string) :
  ciphertextOf (withRecords W file) text = ciphertextOf W text.
Proof. reflexivity. Qed.

(** X11. For a table in which no two different ciphertexts share a digest,
    the index depends on the set of ciphertexts alone: a table that decodes
    to the same ciphertexts, in another order or with lines repeated, loads
    to the same index. *)
Theorem X11_index_ignores_order_and_repeats (W : World) (file file' : Scanned)
    (ctDB : gmap bytes bytes) (s s' : State) :
  open_records W = Ok file ->
  loadRecords W s = (inr ctDB, s') ->
  collisionFree W (omap (ciphertextOf W) (lines file)) ->
  Forall (fun text => is_Some (ciphertextOf W text)) (lines file') ->
  scanErr file' = None ->
  (forall ct, In ct (omap (ciphertextOf W) (lines file')) <->
              In ct (omap (ciphertextOf W) (lines file))) ->
  loadRecords (withRecords W file') s = (inr ctDB, s).
Proof.
  intros Hopen Hload Hfree Hall' Hscan' Hsame.
  destruct (loadRecords_returns W file ctDB s s' Hopen Hload) as (_ & _ & -> & _).
  rewrite (loadRecords_open (withRecords W file') file' s eq_refl).
  unfold bind. rewrite records_loop_withRecords.
  rewrite (records_loop_stores W _ ∅ s Hall'), Hscan'.
  assert (Heq : storeAll W ∅ (omap (ciphertextOf W) (lines file')) =
                storeAll W ∅ (omap (ciphertextOf W) (lines file))).
  { apply map_eq. intros key.
    rewrite !storeAll_lookup, !lookup_empty.
    assert (Hfree' : collisionFree W (omap (ciphertextOf W) (lines file'))).
    { intros ct1 ct2 H1 H2. apply Hfree; apply Hsame; assumption. }
    apply option_eq. intros ct.
    rewrite (latest_collisionFree W _ key ct Hfree').
    rewrite (latest_collisionFree W _ key ct Hfree).
    rewrite Hsame. reflexivity. }
  rewrite Heq. reflexivity.
Qed.

Lemma honest_collisionFree :
  collisionFree Fixture.honest
    (omap (ciphertextOf Fixture.honest)
       (lines {| lines := Fixture.records; scanErr := None |})).
Proof.
  intros ct1 ct2 H1 H2. simpl in H1, H2.
  destruct H1 as [<-|[<-|[]]]; destruct H2 as [<-|[<-|[]]];
    vm_compute; congruence.
Qed.

Lemma reordered_decodes :
  Forall (fun text => is_Some (ciphertextOf Fixture.honest text))
    (lines {| lines := ["x,d29ybGQ="; "y,aGVsbG8="; "z,d29ybGQ="]; scanErr := None |}).
Proof. repeat constructor; vm_compute; eauto. Qed.

Lemma reordered_same_ciphertexts (ct : bytes) :
  In ct (omap (ciphertextOf Fixture.honest)
           (lines {| lines := ["x,d29ybGQ="; "y,aGVsbG8="; "z,d29ybGQ="];
                     scanErr := None |})) <->
  In ct (omap (ciphertextOf Fixture.honest)
           (lines {| lines := Fixture.records; scanErr := None |})).
Proof. vm_compute. tauto. Qed.

Lemma X11_witness :
  loadRecords
    (withRecords Fixture.honest
       {| lines := ["x,d29ybGQ="; "y,aGVsbG8="; "z,d29ybGQ="]; scanErr := None |})
    start =
  (inr (storeAll Fixture.honest ∅ [bytes_of_string "hello"; bytes_of_string "world"]),
   start).
Proof.
  exact (X11_index_ignores_order_and_repeats Fixture.honest
           {| lines := Fixture.records; scanErr := None |}
           {| lines := ["x,d29ybGQ="; "y,aGVsbG8="; "z,d29ybGQ="]; scanErr := None |}
           _ start start eq_refl honest_load honest_collisionFree
           reordered_decodes eq_refl reordered_same_ciphertexts).
Defined.

(** X12. A ciphertext of the table is found again through its printed
    digest: for a proof line whose digest field is the hexadecimal encoding
    of the SHA-256 digest of a ciphertext of the loaded table, the request
    carries a ciphertext of the table with that digest, and that very
    ciphertext when the table has no collisions. *)
Theorem X12_table_and_proof_line_reconcile (W : World) (file : Scanned)
    (ctDB : gmap bytes bytes) (s s' : State) (text : string) (ct : bytes)
    (l1 l2 : string) :
  open_records W = Ok file ->
  loadRecords W s = (inr ctDB, s') ->
  In text (lines file) ->
  ciphertextOf W text = Some ct ->
  let req := requestOf ctDB (hex.EncodeToString (sha256_Sum256 W ct)) l1 l2 in
  In (pb.Ciphertext req) (omap (ciphertextOf W) (lines file)) /\
  sha256_Sum256 W (pb.Ciphertext req) = sha256_Sum256 W ct /\
  (collisionFree W (omap (ciphertextOf W) (lines file)) -> pb.Ciphertext req = ct).
Proof.
  intros Hopen Hload Hin Hct req.
  assert (Hmem : In ct (omap (ciphertextOf W) (lines file))).
  { apply list_elem_of_In, list_elem_of_omap. exists text.
    split; [apply list_elem_of_In, Hin|exact Hct]. }
  assert (Hkey : lookupKey (hex.EncodeToString (sha256_Sum256 W ct)) = sha256_Sum256 W ct).
  { rewrite lookupKey_take, hex_round_trip. simpl.
    rewrite take_app_le by (rewrite sha256_Size; lia).
    apply take_ge. rewrite sha256_Size. lia. }
  destruct (loadRecords_returns W file ctDB s s' Hopen Hload) as (_ & _ & Hdb & _).
  destruct (latest_complete W (sha256_Sum256 W ct) _ None ct Hmem eq_refl) as [ct' Hct'].
  assert (Hreq : pb.Ciphertext req = ct').
  { unfold req, requestOf. simpl. rewrite Hkey, Hdb, storeAll_lookup, lookup_empty, Hct'.
    reflexivity. }
  destruct (latest_sound W _ _ _ _ Hct') as [[Hin' Hk']|Hacc]; [|discriminate].
  rewrite Hreq. split; [exact Hin'|]. split; [exact Hk'|].
  intros Hfree. apply Hfree; assumption.
Qed.

Lemma X12_witness :
  let req :=
    requestOf
      (storeAll Fixture.honest ∅ [bytes_of_string "hello"; bytes_of_string "world"])
      (hex.EncodeToString (sha256_Sum256 Fixture.honest (bytes_of_string "world")))
      "pop" "poe" in
  pb.Ciphertext req = bytes_of_string "world".
Proof.
  exact (proj2 (proj2
           (X12_table_and_proof_line_reconcile Fixture.honest
              {| lines := Fixture.records; scanErr := None |} _ start start
              "C3D4,d29ybGQ=" (bytes_of_string "world") "pop" "poe"
              eq_refl honest_load (or_intror (or_introl eq_refl)) eq_refl))
           honest_collisionFree).
Defined.

(** ** What the run sends (lines 34-188) *)

Lemma main_prelude (W : World) (s : State) :
  main W s = bind (prelude W) (fun p => session W (fst p) (snd p)) s.
Proof.
  unfold main, prelude, bind.
  destruct (dial W s) as [[x|[]] s1]; [reflexivity|].
  destruct (getRootTreeHash W s1) as [[x|rth] s2]; [reflexivity|].
  destruct (getPublicKey W s2) as [[x|pk] s3]; [reflexivity|].
  destruct (importKeys W pk s3) as [[x|[rsaEncPub rsaVerPub]] s4]; [reflexivity|].
  simpl.
  destruct (encryptionTest W rsaEncPub s4) as [[x|[c1 c2]] s5]; [reflexivity|].
  simpl.
  destruct (specTest W c1 c2 s5) as [[x|[]] s6]; reflexivity.
Qed.

Lemma quiet_ret {A} (a : A) : quiet (ret a).
Proof. intros s r s' H. inversion H. auto. Qed.

Lemma quiet_exit {A} (x : Exit) : quiet (@exit A x).
Proof. intros s r s' H. inversion H. auto. Qed.

Lemma quiet_emit (ev : Event) :
  decryptRequests [ev] = [] -> quiet (emit ev).
Proof.
  intros Hev s r s' H. inversion H; subst. simpl.
  rewrite decryptRequests_app, Hev, app_nil_r. auto.
Qed.

Lemma quiet_bind {A B} (m : M A) (k : A -> M B) :
  quiet m -> (forall a, quiet (k a)) -> quiet (bind m k).
Proof.
  intros Hm Hk s r s' H. unfold bind in H.
  destruct (m s) as [[x|a] s1] eqn:Hms.
  - inversion H; subst. apply (Hm _ _ _ Hms).
  - destruct (Hm _ _ _ Hms) as [Htr Hc].
    destruct (Hk a _ _ _ H) as [Htr' Hc']. split; congruence.
Qed.

Lemma quiet_deref {A} (p : option A) : quiet (deref p).
Proof. destruct p; [apply quiet_ret|apply quiet_exit]. Qed.

Lemma quiet_index {A} (a : list A) (i : nat) : quiet (index a i).
Proof. unfold index. destruct (a !! i); [apply quiet_ret|apply quiet_exit]. Qed.

Lemma quiet_forEach {A S} (body : S -> A -> M S) (xs : list A) (acc : S) :
  (forall acc x, quiet (body acc x)) -> quiet (forEach body xs acc).
Proof.
  intros Hbody. revert acc. induction xs as [|x xs IH]; intros acc; simpl.
  - apply quiet_ret.
  - apply quiet_bind; [apply Hbody|exact IH].
Qed.

Create HintDb quiet.
#[local] Hint Resolve quiet_ret quiet_exit quiet_bind quiet_deref quiet_index : quiet.
#[local] Hint Extern 1 (quiet (emit _)) => (apply quiet_emit; reflexivity) : quiet.
#[local] Hint Extern 1 (quiet (fatal _)) => (apply quiet_exit) : quiet.
#[local] Hint Extern 1 (quiet (panic _)) => (apply quiet_exit) : quiet.

Section Quiet.

Variable W : World.

Lemma quiet_dial : quiet (dial W).
Proof. unfold dial. destruct (Dial W); auto with quiet. Qed.

Lemma quiet_getRootTreeHash : quiet (getRootTreeHash W).
Proof.
  unfold getRootTreeHash. apply quiet_bind; [auto with quiet|]. intros _.
  destruct (GetRootTreeHash W _) as [rth|e]; [|auto with quiet].
  apply quiet_bind.
  - unfold sliceTo. destruct (Nat.leb _ _); auto with quiet.
  - intros sig31. auto with quiet.
Qed.

Lemma quiet_getPublicKey : quiet (getPublicKey W).
Proof.
  unfold getPublicKey. apply quiet_bind; [auto with quiet|]. intros _.
  destruct (GetPublicKey W _) as [pk|e]; auto with quiet.
Qed.

Lemma quiet_parseBlock block : quiet (parseBlock W block).
Proof.
  unfold parseBlock. apply quiet_bind; [auto with quiet|]. intros b.
  destruct (x509_ParsePKIXPublicKey W (pem.Bytes b)); auto with quiet.
Qed.

Lemma quiet_importKeys pk : quiet (importKeys W pk).
Proof.
  unfold importKeys. apply quiet_bind; [apply quiet_parseBlock|]. intros encPub.
  apply quiet_bind; [apply quiet_parseBlock|]. intros verPub. auto with quiet.
Qed.

Lemma quiet_encryptionTest rsaEncPub : quiet (encryptionTest W rsaEncPub).
Proof.
  unfold encryptionTest. apply quiet_bind; [auto with quiet|]. intros k.
  destruct (rsa_EncryptOAEP W k samplePlaintext label); [|auto with quiet].
  destruct (rsa_EncryptPKCS1v15 W k samplePKCS1v15PT); auto with quiet.
Qed.

(** The constant [rsaSpecTest] is false: the sample ciphertexts stay here. *)
Lemma quiet_specTest c1 c2 : quiet (specTest W c1 c2).
Proof. unfold specTest, rsaSpecTest. apply quiet_ret. Qed.

Lemma quiet_prelude : quiet (prelude W).
Proof.
  unfold prelude.
  apply quiet_bind; [apply quiet_dial|]. intros _.
  apply quiet_bind; [apply quiet_getRootTreeHash|]. intros rth.
  apply quiet_bind; [apply quiet_getPublicKey|]. intros pk.
  apply quiet_bind; [apply quiet_importKeys|]. intros keys.
  apply quiet_bind; [apply quiet_encryptionTest|]. intros cts.
  apply quiet_bind; [apply quiet_specTest|]. intros _. apply quiet_ret.
Qed.

Lemma quiet_verifyRTH rsaVerPub rth : quiet (verifyRTH W rsaVerPub rth).
Proof.
  unfold verifyRTH. apply quiet_bind; [auto with quiet|]. intros k.
  apply quiet_bind; [|auto with quiet].
  destruct (rsa_VerifyPKCS1v15 W k crypto.SHA256 _ (pb.Sig rth)); auto with quiet.
Qed.

Lemma quiet_loadRecords : quiet (loadRecords W).
Proof.
  unfold loadRecords. destruct (open_records W) as [file|e]; [|auto with quiet].
  apply quiet_bind.
  - apply quiet_forEach. intros ctDB text. unfold recordLine.
    apply quiet_bind; [auto with quiet|]. intros field.
    destruct (base64_DecodeString W field) as [ct [e|]]; auto with quiet.
  - intros ctDB. destruct (scanErr file); auto with quiet.
Qed.

End Quiet.

Lemma loadRecords_inr (W : World) (ctDB : gmap bytes bytes) (s s' : State) :
  loadRecords W s = (inr ctDB, s') ->
  exists file, open_records W = Ok file /\ s' = s.
Proof.
  intros H. destruct (open_records W) as [file|e] eqn:Hopen.
  - exists file. split; [reflexivity|].
    destruct (loadRecords_returns W file ctDB s s' Hopen H) as (_ & _ & _ & Hs).
    exact Hs.
  - unfold loadRecords in H. rewrite Hopen in H. discriminate.
Qed.

(** What the session sends: nothing, or the requests of the first lines of
    the proof table, built with the index that was loaded. *)
Lemma session_requests (W : World) (vk : option rsa.PublicKey)
    (rth : pb.RootTreeHash) (s : State) r s' :
  session W vk rth s = (r, s') ->
  (decryptRequests (trace s') = decryptRequests (trace s) /\ calls s' = calls s) \/
  exists file proofFile ctDB s0 n reqs,
    open_records W = Ok file /\
    loadRecords W s0 = (inr ctDB, s0) /\
    open_records_proofs W = Ok proofFile /\
    n <= length (lines proofFile) /\
    Forall2 (fun text req => requestOfLine ctDB text = Some req)
      (take n (lines proofFile)) reqs /\
    decryptRequests (trace s') = decryptRequests (trace s) ++ reqs /\
    calls s' = calls s + n /\
    (r = inr tt -> n = length (lines proofFile)).
Proof.
  intros H. unfold session, bind in H.
  destruct (verifyRTH W vk rth s) as [[x|[]] s1] eqn:Hv.
  { inversion H; subst. left. apply (quiet_verifyRTH W vk rth _ _ _ Hv). }
  destruct (quiet_verifyRTH W vk rth _ _ _ Hv) as [Htr1 Hc1].
  destruct (loadRecords W s1) as [[x|ctDB] s2] eqn:Hl.
  { inversion H; subst. left.
    destruct (quiet_loadRecords W _ _ _ Hl). split; congruence. }
  destruct (loadRecords_inr W ctDB s1 s2 Hl) as (file & Hopen & ->).
  unfold processProofs in H.
  destruct (open_records_proofs W) as [proofFile|e] eqn:Hopenp.
  2:{ inversion H; subst. left. split; congruence. }
  unfold bind in H.
  destruct (forEach (proofLine W ctDB) (lines proofFile)
              {| presenceDB := ∅; extensionDB := ∅ |} s1) as [r1 s3] eqn:Hloop.
  destruct (proofs_loop_requests W ctDB _ _ _ _ _ Hloop)
    as (n & reqs & Hn & Hreqs & Htr & Hcalls & Hall).
  right. exists file, proofFile, ctDB, s1, n, reqs.
  assert (Hs' : s' = s3 /\ (r = inr tt -> exists dbs', r1 = inr dbs')).
  { destruct r1 as [x|dbs'].
    - inversion H; subst. split; [reflexivity|discriminate].
    - destruct (scanErr proofFile); inversion H; subst; split; eauto; discriminate. }
  destruct Hs' as [-> Hret].
  repeat split; try assumption; try congruence.
  intros Hr. destruct (Hret Hr) as [dbs' ->]. apply (Hall dbs' eq_refl).
Qed.

(** X13. In every run the only decrypt requests are those of proof lines.
    Nothing is sent unless both tables were opened and the ciphertext table
    was loaded; the sample ciphertexts of the encryption test are never
    sent; and the requests sent are those of the first [n] lines of the
    proof table, in order, [n] being the number of its lines when the
    program returns. *)
Theorem X13_run_sends_only_proof_lines (W : World) :
  (decryptRequests (trace (snd (run W))) = [] /\ calls (snd (run W)) = 0) \/
  exists file proofFile ctDB s0 n,
    open_records W = Ok file /\
    loadRecords W s0 = (inr ctDB, s0) /\
    open_records_proofs W = Ok proofFile /\
    n <= length (lines proofFile) /\
    Forall2 (fun text req => requestOfLine ctDB text = Some req)
      (take n (lines proofFile)) (decryptRequests (trace (snd (run W)))) /\
    calls (snd (run W)) = n /\
    (fst (run W) = inr tt -> n = length (lines proofFile)).
Proof.
  unfold run. rewrite main_prelude. unfold bind.
  destruct (prelude W start) as [[x|[vk rth]] s1] eqn:Hp.
  { left. apply (quiet_prelude W _ _ _ Hp). }
  destruct (quiet_prelude W _ _ _ Hp) as [Htr1 Hc1]. simpl in Htr1, Hc1.
  cbn [fst snd].
  destruct (session W vk rth s1) as [r s'] eqn:Hs. cbn [fst snd].
  destruct (session_requests W vk rth s1 r s' Hs)
    as [[Htr Hc]|(file & proofFile & ctDB & s0 & n & reqs & Ho & Hl & Hop & Hn & Hreqs
                   & Htr & Hc & Hret)].
  - left. split; congruence.
  - right. exists file, proofFile, ctDB, s0, n.
    rewrite Htr, Htr1, Hc, Hc1. simpl.
    repeat split; assumption.
Qed.

(** The run on the honest fixture, read through the theorem above. *)
Example honest_run :
  fst (run Fixture.honest) = inr tt /\
  decryptRequests (trace (snd (run Fixture.honest))) =
    [Fixture.request "hello" "popToken" "poeToken";
     Fixture.request "world" "pop2" "poe2"].
Proof. split; vm_compute; reflexivity. Qed.

(** ** Keys that cannot be used (lines 70-92 and 115) *)

(** The state in which the keys are imported. *)
Lemma run_import (W : World) (rth : pb.RootTreeHash) (pk : pb.Quote) :
  Dial W = None ->
  GetRootTreeHash W (bytes_of_string "aaaaaaaaa") = Ok rth ->
  31 <= length (pb.Sig rth) ->
  GetPublicKey W (bytes_of_string "a long and random byte array") = Ok pk ->
  run W =
  bind (importKeys W pk)
    (fun keys =>
       let '(rsaEncPub, rsaVerPub) := keys in
       bind (encryptionTest W rsaEncPub)
         (fun cts =>
            let '(sampleCiphertext, samplePKCS1v15CT) := cts in
            bind (specTest W sampleCiphertext samplePKCS1v15CT)
              (fun _ => session W rsaVerPub rth)))
    (advance start
       [CallGetRootTreeHash (bytes_of_string "aaaaaaaaa");
        LogRTH (pb.Rth rth) (pb.Nonce rth) (take 31 (pb.Sig rth));
        CallGetPublicKey (bytes_of_string "a long and random byte array");
        LogQuote pk] 0).
Proof.
  intros Hdial Hrth Hsig Hpk.
  assert (H1 : dial W start = (inr tt, start))
    by (unfold dial; rewrite Hdial; reflexivity).
  assert (H2 : getRootTreeHash W start =
            (inr rth, advance start
               [CallGetRootTreeHash (bytes_of_string "aaaaaaaaa");
                LogRTH (pb.Rth rth) (pb.Nonce rth) (take 31 (pb.Sig rth))] 0)).
  { unfold getRootTreeHash. rewrite Hrth. unfold sliceTo.
    destruct (Nat.leb_spec 31 (length (pb.Sig rth) + length (sigSpare W)))
      as [_|Hlt]; [|lia].
    rewrite take_app_le by lia. reflexivity. }
  set (s2 := advance start _ 0) in H2.
  assert (H3 : getPublicKey W s2 =
            (inr pk, advance s2
               [CallGetPublicKey (bytes_of_string "a long and random byte array");
                LogQuote pk] 0)).
  { unfold getPublicKey. rewrite Hpk. reflexivity. }
  unfold run, main.
  rewrite (bind_inr _ _ _ _ _ H1), (bind_inr _ _ _ _ _ H2), (bind_inr _ _ _ _ _ H3).
  reflexivity.
Qed.

Lemma verifyRTH_nil_session (W : World) (rth : pb.RootTreeHash) (s : State) :
  session W None rth s = (inl (Panicked NilDereference), s).
Proof. unfold session. apply bind_inl, verifyRTH_nil. Qed.

(** X14. A quote whose key parses but is not an RSA key raises no error at
    import; the program fails where the nil key is first read: with such an
    encryption key, by a nil dereference in the sample encryption, before the
    commitment is verified; with such a verification key, by a nil
    dereference in the verification, before any table is opened.  No decrypt
    request is sent in either case. *)
Theorem X14_non_rsa_key_panics_at_first_use (W : World) (rth : pb.RootTreeHash)
    (pk : pb.Quote) (be bv : pem.Block) :
  Dial W = None ->
  GetRootTreeHash W (bytes_of_string "aaaaaaaaa") = Ok rth ->
  31 <= length (pb.Sig rth) ->
  GetPublicKey W (bytes_of_string "a long and random byte array") = Ok pk ->
  pem_Decode W (pb.RSA_EncryptionKey pk) = Some be ->
  pem_Decode W (pb.RSA_VerificationKey pk) = Some bv ->
  let s3 := advance start
       [CallGetRootTreeHash (bytes_of_string "aaaaaaaaa");
        LogRTH (pb.Rth rth) (pb.Nonce rth) (take 31 (pb.Sig rth));
        CallGetPublicKey (bytes_of_string "a long and random byte array");
        LogQuote pk] 0 in
  (forall alg verPub,
     x509_ParsePKIXPublicKey W (pem.Bytes be) = Ok (x509.Other alg) ->
     x509_ParsePKIXPublicKey W (pem.Bytes bv) = Ok verPub ->
     run W = (inl (Panicked NilDereference), s3)) /\
  (forall encKey alg ct1 ct2,
     x509_ParsePKIXPublicKey W (pem.Bytes be) = Ok (x509.RSA encKey) ->
     x509_ParsePKIXPublicKey W (pem.Bytes bv) = Ok (x509.Other alg) ->
     rsa_EncryptOAEP W encKey samplePlaintext label = Ok ct1 ->
     rsa_EncryptPKCS1v15 W encKey samplePKCS1v15PT = Ok ct2 ->
     run W = (inl (Panicked NilDereference),
              advance s3 [LogEncryptionTest samplePlaintext label ct1] 0)).
Proof.
  intros Hdial Hrth Hsig Hpk Hbe Hbv s3.
  pose proof (run_import W rth pk Hdial Hrth Hsig Hpk) as Hrun. fold s3 in Hrun.
  split.
  - intros alg verPub He Hv. rewrite Hrun.
    rewrite (bind_inr _ _ _ _ _ (importKeys_parsed W pk be bv _ _ s3 Hbe Hbv He Hv)).
    reflexivity.
  - intros encKey alg ct1 ct2 He Hv Hoaep Hpkcs. rewrite Hrun.
    rewrite (bind_inr _ _ _ _ _ (importKeys_parsed W pk be bv _ _ s3 Hbe Hbv He Hv)).
    simpl assertRSA.
    assert (H5 : encryptionTest W (Some encKey) s3 =
              (inr (ct1, ct2), advance s3 [LogEncryptionTest samplePlaintext label ct1] 0)).
    { unfold encryptionTest. simpl. rewrite bind_ret_l, Hoaep, Hpkcs. reflexivity. }
    rewrite (bind_inr _ _ _ _ _ H5).
    unfold specTest. simpl. rewrite bind_ret_l. apply verifyRTH_nil_session.
Qed.

Lemma X14_witness :
  let W := Fixture.world (Fixture.commitment Fixture.rootHash Fixture.sentNonce)
             (Fixture.quote "E" "R2048") Fixture.echo Fixture.records Fixture.proofs in
  fst (run W) = inl (Panicked NilDereference) /\
  decryptRequests (trace (snd (run W))) = [].
Proof.
  intros W.
  assert (Hsig : 31 <= length (pb.Sig (Fixture.commitment Fixture.rootHash Fixture.sentNonce)))
    by (vm_compute; lia).
  rewrite (proj1 (X14_non_rsa_key_panics_at_first_use W
                    (Fixture.commitment Fixture.rootHash Fixture.sentNonce)
                    (Fixture.quote "E" "R2048")
                    {| pem.Type_ := "PUBLIC KEY"; pem.Bytes := bytes_of_string "E" |}
                    {| pem.Type_ := "PUBLIC KEY"; pem.Bytes := bytes_of_string "R2048" |}
                    eq_refl eq_refl Hsig eq_refl eq_refl eq_refl)
             "ECDSA" (x509.RSA {| rsa.N := 2 ^ 2047 + 1; rsa.E := 65537 |})
             eq_refl eq_refl).
  split; reflexivity.
Defined.

(** X15. The sample encryptions gate the session: when either of them
    returns an error, as for a key too short for the sample message, the
    program exits through [log.Fatal] with that error before the commitment
    is verified and before any table is opened, and nothing of the test is
    logged. *)
Theorem X15_failed_sample_encryption_is_fatal (W : World) (rth : pb.RootTreeHash)
    (pk : pb.Quote) (be bv : pem.Block) (encKey : rsa.PublicKey)
    (verPub : x509.PublicKey) :
  Dial W = None ->
  GetRootTreeHash W (bytes_of_string "aaaaaaaaa") = Ok rth ->
  31 <= length (pb.Sig rth) ->
  GetPublicKey W (bytes_of_string "a long and random byte array") = Ok pk ->
  pem_Decode W (pb.RSA_EncryptionKey pk) = Some be ->
  pem_Decode W (pb.RSA_VerificationKey pk) = Some bv ->
  x509_ParsePKIXPublicKey W (pem.Bytes be) = Ok (x509.RSA encKey) ->
  x509_ParsePKIXPublicKey W (pem.Bytes bv) = Ok verPub ->
  let s3 := advance start
       [CallGetRootTreeHash (bytes_of_string "aaaaaaaaa");
        LogRTH (pb.Rth rth) (pb.Nonce rth) (take 31 (pb.Sig rth));
        CallGetPublicKey (bytes_of_string "a long and random byte array");
        LogQuote pk] 0 in
  (forall e, rsa_EncryptOAEP W encKey samplePlaintext label = Err e ->
     run W = (inl (Fatal e), s3)) /\
  (forall ct1 e,
     rsa_EncryptOAEP W encKey samplePlaintext label = Ok ct1 ->
     rsa_EncryptPKCS1v15 W encKey samplePKCS1v15PT = Err e ->
     run W = (inl (Fatal e), s3)).
Proof.
  intros Hdial Hrth Hsig Hpk Hbe Hbv He Hv s3.
  pose proof (run_import W rth pk Hdial Hrth Hsig Hpk) as Hrun. fold s3 in Hrun.
  rewrite (bind_inr _ _ _ _ _ (importKeys_parsed W pk be bv _ _ s3 Hbe Hbv He Hv)) in Hrun.
  simpl assertRSA in Hrun.
  split.
  - intros e Hoaep. rewrite Hrun. apply bind_inl.
    unfold encryptionTest. simpl. rewrite bind_ret_l, Hoaep. reflexivity.
  - intros ct1 e Hoaep Hpkcs. rewrite Hrun. apply bind_inl.
    unfold encryptionTest. simpl. rewrite bind_ret_l, Hoaep, Hpkcs. reflexivity.
Qed.

Lemma X15_witness :
  let W := Fixture.world (Fixture.commitment Fixture.rootHash Fixture.sentNonce)
             (Fixture.quote "R512" "R2048") Fixture.echo Fixture.records Fixture.proofs in
  fst (run W) = inl (Fatal "crypto/rsa: message too long for RSA public key size") /\
  decryptRequests (trace (snd (run W))) = [].
Proof.
  intros W.
  assert (Hsig : 31 <= length (pb.Sig (Fixture.commitment Fixture.rootHash Fixture.sentNonce)))
    by (vm_compute; lia).
  rewrite (proj1 (X15_failed_sample_encryption_is_fatal W
                    (Fixture.commitment Fixture.rootHash Fixture.sentNonce)
                    (Fixture.quote "R512" "R2048")
                    {| pem.Type_ := "PUBLIC KEY"; pem.Bytes := bytes_of_string "R512" |}
                    {| pem.Type_ := "PUBLIC KEY"; pem.Bytes := bytes_of_string "R2048" |}
                    {| rsa.N := 2 ^ 511 + 1; rsa.E := 65537 |}
                    (x509.RSA {| rsa.N := 2 ^ 2047 + 1; rsa.E := 65537 |})
                    eq_refl eq_refl Hsig eq_refl eq_refl eq_refl eq_refl eq_refl)
             "crypto/rsa: message too long for RSA public key size" eq_refl).
  split; reflexivity.
Defined.

(** ** The proof maps (lines 155-165) *)

Lemma proofLine_stores (W : World) (ctDB : gmap bytes bytes) (dbs dbs' : ProofDBs)
    (text : string) (s s' : State) :
  proofLine W ctDB dbs text s = (inr dbs', s') ->
  exists l0 l1 l2 rest,
    strings.Split text " " = l0 :: l1 :: l2 :: rest /\
    dbs' = storeProofs dbs l0 l1 l2.
Proof.
  intros H.
  destruct (strings.Split text " ") as [|l0 [|l1 [|l2 rest]]] eqn:Hsplit;
    try (rewrite proofLine_short in H by (rewrite Hsplit; simpl; lia); discriminate).
  rewrite (proofLine_fields W ctDB _ _ _ _ _ _ _ Hsplit) in H.
  unfold bind in H.
  destruct (reportOutcome _ _ _) as [[x|[]] s1]; [discriminate|].
  inversion H; subst. eauto 6.
Qed.

Lemma digestFields_cons (text l0 : string) (rest xs : list string) :
  strings.Split text " " = l0 :: rest ->
  digestFields (text :: xs) = {[l0]} ∪ digestFields xs.
Proof. intros H. unfold digestFields. simpl. rewrite H. reflexivity. Qed.

(** Lines that do not name [l0] leave its tokens as they are. *)
Lemma proofs_loop_keeps_tokens (W : World) (ctDB : gmap bytes bytes)
    (xs : list string) (dbs dbs' : ProofDBs) (s s' : State) (l0 : string) :
  forEach (proofLine W ctDB) xs dbs s = (inr dbs', s') ->
  l0 ∉ digestFields xs ->
  presenceDB dbs' !! l0 = presenceDB dbs !! l0 /\
  extensionDB dbs' !! l0 = extensionDB dbs !! l0.
Proof.
  revert dbs s. induction xs as [|text xs IH]; intros dbs s Hrun Hnot; simpl in Hrun.
  - inversion Hrun; subst. auto.
  - unfold bind in Hrun.
    destruct (proofLine W ctDB dbs text s) as [[x|dbs1] s1] eqn:Hstep; [discriminate|].
    destruct (proofLine_stores _ _ _ _ _ _ _ Hstep) as (k0 & k1 & k2 & rest & Hsplit & ->).
    rewrite (digestFields_cons _ _ _ _ Hsplit) in Hnot.
    destruct (IH _ _ Hrun) as [Hp He]; [set_solver|].
    rewrite Hp, He. unfold storeProofs. simpl.
    rewrite !lookup_insert_ne by set_solver. auto.
Qed.

(** X16. The two proof maps are filled in step: when the loop returns, both
    hold, besides the keys they had, exactly the digest fields of the lines,
    each under the tokens of the last line that names it; a digest field
    that comes twice leaves one entry in each map, though each of its lines
    had its own request. *)
Theorem X16_proof_maps_share_their_keys (W : World) (ctDB : gmap bytes bytes)
    (xs : list string) (dbs dbs' : ProofDBs) (s s' : State) :
  forEach (proofLine W ctDB) xs dbs s = (inr dbs', s') ->
  dom (presenceDB dbs') = dom (presenceDB dbs) ∪ digestFields xs /\
  dom (extensionDB dbs') = dom (extensionDB dbs) ∪ digestFields xs /\
  calls s' = calls s + length xs /\
  (forall pre text post l0 l1 l2 rest,
     xs = pre ++ text :: post ->
     strings.Split text " " = l0 :: l1 :: l2 :: rest ->
     l0 ∉ digestFields post ->
     presenceDB dbs' !! l0 = Some l1 /\ extensionDB dbs' !! l0 = Some l2).
Proof.
  intros Hrun.
  split; [|split; [|split]].
  - revert dbs s Hrun. induction xs as [|text xs IH]; intros dbs s Hrun; simpl in Hrun.
    + inversion Hrun; subst. unfold digestFields. simpl. set_solver.
    + unfold bind in Hrun.
      destruct (proofLine W ctDB dbs text s) as [[x|dbs1] s1] eqn:Hstep; [discriminate|].
      destruct (proofLine_stores _ _ _ _ _ _ _ Hstep) as (l0 & l1 & l2 & rest & Hsplit & ->).
      rewrite (IH _ _ Hrun), (digestFields_cons _ _ _ _ Hsplit).
      unfold storeProofs. simpl. rewrite dom_insert_L. set_solver.
  - revert dbs s Hrun. induction xs as [|text xs IH]; intros dbs s Hrun; simpl in Hrun.
    + inversion Hrun; subst. unfold digestFields. simpl. set_solver.
    + unfold bind in Hrun.
      destruct (proofLine W ctDB dbs text s) as [[x|dbs1] s1] eqn:Hstep; [discriminate|].
      destruct (proofLine_stores _ _ _ _ _ _ _ Hstep) as (l0 & l1 & l2 & rest & Hsplit & ->).
      rewrite (IH _ _ Hrun), (digestFields_cons _ _ _ _ Hsplit).
      unfold storeProofs. simpl. rewrite dom_insert_L. set_solver.
  - apply (proofs_loop_returns W ctDB _ _ _ _ _ Hrun).
  - intros pre text post l0 l1 l2 rest -> Hsplit Hnot.
    rewrite forEach_app in Hrun. unfold bind in Hrun.
    destruct (forEach (proofLine W ctDB) pre dbs s) as [[x|dbs1] s1]; [discriminate|].
    simpl in Hrun. unfold bind in Hrun.
    destruct (proofLine W ctDB dbs1 text s1) as [[x|dbs2] s2] eqn:Hstep; [discriminate|].
    destruct (proofLine_stores _ _ _ _ _ _ _ Hstep) as (k0 & k1 & k2 & rest' & Hsplit' & ->).
    rewrite Hsplit in Hsplit'. inversion Hsplit'; subst.
    destruct (proofs_loop_keeps_tokens W ctDB post _ dbs' s2 s' k0 Hrun Hnot) as [Hp He].
    rewrite Hp, He. unfold storeProofs. simpl. rewrite !lookup_insert_eq. auto.
Qed.

Lemma repeated_digest_run :
  exists dbs' s',
    forEach (proofLine Fixture.honest ∅)
      ["68656c6c6f popA poeA"; "68656c6c6f popB poeB"]
      {| presenceDB := ∅; extensionDB := ∅ |} start = (inr dbs', s').
Proof. vm_compute. eauto. Qed.

Lemma X16_witness :
  exists dbs' s',
    forEach (proofLine Fixture.honest ∅)
      ["68656c6c6f popA poeA"; "68656c6c6f popB poeB"]
      {| presenceDB := ∅; extensionDB := ∅ |} start = (inr dbs', s') /\
    calls s' = calls start + 2.
Proof.
  destruct repeated_digest_run as (dbs' & s' & Hrun).
  exists dbs', s'. split; [exact Hrun|].
  exact (proj1 (proj2 (proj2
           (X16_proof_maps_share_their_keys Fixture.honest ∅ _ _ dbs' start s' Hrun)))).
Defined.
